(** * poly-model-auto-trading: the decision pipeline of the 15-minute bot

    A shallow embedding of the TypeScript sources of [node_bot/src]
    ([utils.ts], [model.ts], [priceFeed.ts], [polymarket.ts], [index.ts])
    and of the resampler of [scripts/collectData.ts], and the properties of
    the pipeline proved about it.

    Conventions of the embedding.
    - A JavaScript [number] that carries a price, a probability, a volume
      or a stake is an exact rational ([Q]); IEEE-754 rounding, overflow
      and the sign of zero are outside that model.  Equality of such values
      is [==] ([Qeq]).  Where a statement depends on the rounding, the
      function is given a second time over binary64, the kernel's
      primitive floats ([Binary64]).
    - A division whose result is stored as a feature or compared as a ratio
      is [jsdiv], which yields the non-finite values JavaScript yields when
      the divisor is zero.
    - Epoch timestamps are integral milliseconds ([Z]), inside the range of
      [Date].
    - Module-level [let] variables become fields of a state record that the
      functions take and return; what the outside world answers during a
      call (clock, broker, model) is an explicit argument.
    - An exception that leaves a function is a result of its own, and an
      identifier is looked up in the scope of the module that reads it. *)

From Stdlib Require PrimFloat.
From Stdlib Require Import String Ascii DecimalString.
From Stdlib Require Import QArith Qminmax Qabs Lqa ZArith Lia Bool.
From Stdlib Require Import List Permutation Sorted.
Import ListNotations.

Open Scope Q_scope.
Set Warnings "-inexact-float".

(** ** JavaScript numbers at the places where finiteness is observable *)

Inductive number : Type :=
| Finite (q : Q)
| PosInfinity
| NegInfinity
| NaN.

Definition Qlt_bool (x y : Q) : bool := negb (Qle_bool y x).

(** [n / d] in JavaScript, exact on finite results. *)
Definition jsdiv (n d : Q) : number :=
  if Qeq_bool d 0 then
    (if Qlt_bool 0 n then PosInfinity
     else if Qlt_bool n 0 then NegInfinity
     else NaN)
  else Finite (n / d).

(** [x < c] for a finite constant [c]. *)
Definition number_ltb (x : number) (c : Q) : bool :=
  match x with
  | Finite q => Qlt_bool q c
  | NegInfinity => true
  | PosInfinity | NaN => false
  end.

Definition is_finite (x : number) : bool :=
  match x with Finite _ => true | _ => false end.

(** ** utils.ts *)

Module Utils.

(** [kellyBetSize(probWin, marketPrice, kellyFraction = 0.25, maxFraction = 0.10)].
    The two defaulted parameters are explicit here; [calculateBetSize]
    is the only caller and passes neither. *)
Definition default_kellyFraction : Q := 0.25.
Definition default_maxFraction : Q := 0.10.

Definition odds (marketPrice : Q) : Q := (1 - marketPrice) / marketPrice.

Definition fullKelly (probWin marketPrice : Q) : Q :=
  let b := odds marketPrice in
  let q := 1 - probWin in
  (b * probWin - q) / b.

Definition kellyBetSize (probWin marketPrice kellyFraction maxFraction : Q) : Q :=
  if Qle_bool probWin 0 || Qle_bool 1 probWin then 0
  else if Qle_bool marketPrice 0 || Qle_bool 1 marketPrice then 0
  else
    let f := fullKelly probWin marketPrice in
    if Qle_bool f 0 then 0
    else
      let adjustedKelly := f * kellyFraction in
      Qmin adjustedKelly maxFraction.

Definition calculateBetSize (bankroll probWin marketPrice : Q) : Q :=
  let fraction :=
    kellyBetSize probWin marketPrice default_kellyFraction default_maxFraction in
  bankroll * fraction.

(** *** 15-minute windows

    [Date] accessors on an epoch-millisecond time value, as ECMAScript
    defines them ([Day], [HourFromTime], [MinFromTime], [MakeTime],
    [MakeDate]); [/] and [mod] on [Z] round towards minus infinity, as
    the standard's [floor] and [modulo] do. *)
Open Scope Z_scope.

Definition msPerMinute : Z := 60000.
Definition msPerHour : Z := 3600000.
Definition msPerDay : Z := 86400000.

Definition Day (t : Z) : Z := t / msPerDay.
Definition getUTCHours (t : Z) : Z := (t / msPerHour) mod 24.
Definition getUTCMinutes (t : Z) : Z := (t / msPerMinute) mod 60.

(** [d.setUTCMinutes(m, 0, 0)]: same day and hour, the given minute,
    seconds and milliseconds cleared. *)
Definition setUTCMinutes (t m : Z) : Z :=
  Day t * msPerDay + (getUTCHours t * msPerHour + m * msPerMinute).

Definition get15MinWindowStart (date : Z) : Z :=
  let minutes := getUTCMinutes date in
  let windowStartMinute := (minutes / 15) * 15 in
  setUTCMinutes date windowStartMinute.

Definition getNext15MinWindowStart (date : Z) : Z :=
  get15MinWindowStart date + 15 * 60 * 1000.

Definition msUntilNextWindow (now : Z) : Z :=
  getNext15MinWindowStart now - now.

Definition isOptimalBettingTime (now : Z) : bool :=
  let msUntil := msUntilNextWindow now in
  (10000 <? msUntil) && (msUntil <? 60000).

(** [retry(fn, maxRetries = 3, baseDelay = 1000)].  [fn attempt] is what
    the call numbered [attempt] (from 0) of the thunk settles to: a value or
    the error it rejects with.  The result carries the delays slept, in
    order.  [remaining] is [maxRetries - attempt]. *)
Fixpoint retry_loop {T E : Type} (fn : nat -> T + E) (baseDelay : Z)
         (attempt remaining : nat) : (T + E) * list Z :=
  match fn attempt with
  | inl v => (inl v, [])
  | inr lastError =>
      match remaining with
      | O => (inr lastError, [])
      | S remaining' =>
          let delay := baseDelay * 2 ^ Z.of_nat attempt in
          let '(r, slept) := retry_loop fn baseDelay (S attempt) remaining' in
          (r, delay :: slept)
      end
  end.

Definition retry {T E : Type} (fn : nat -> T + E) (maxRetries : nat)
           (baseDelay : Z) : (T + E) * list Z :=
  retry_loop fn baseDelay 0 maxRetries.

Close Scope Z_scope.

End Utils.

(** ** model.ts *)

Module Model.

Record Candle15m : Type := {
  timestamp : Z;
  open : Q;
  high : Q;
  low : Q;
  close : Q;
  volume : Q
}.

Record ModelMetadata : Type := {
  feature_names : list string;
  n_features : nat
}.

Inductive Error : Type :=
| InsufficientHistory (got : nat)   (* "需要至少 20 根 K 线" *)
| NoData.                           (* "无数据" *)

Inductive LogCall : Type :=
| WarnCountMismatch (generated expected : nat)
| DebugPrepared (count : nat).

Inductive result (A : Type) : Type :=
| Ok (a : A)
| Throw (e : Error).
Arguments Ok {A} a.
Arguments Throw {A} e.

(** [l[i]] for an arbitrary integer index: [undefined] outside the array. *)
Definition at_ {A : Type} (l : list A) (i : Z) : option A :=
  if (i <? 0)%Z then None else nth_error l (Z.to_nat i).

(** [l[i] ?? d] *)
Definition at_or (l : list Q) (i : Z) (d : Q) : Q :=
  match at_ l i with Some x => x | None => d end.

Definition len {A : Type} (l : list A) : Z := Z.of_nat (length l).

(** [values.slice(-period)]: the last [period] elements, the whole array
    when it is shorter, and the whole array for [slice(-0)]. *)
Definition slice_last {A : Type} (period : nat) (l : list A) : list A :=
  match period with
  | O => l
  | _ => skipn (length l - period) l
  end.

(** [values.reduce((a, b) => a + b, 0)] *)
Definition sum (l : list Q) : Q := fold_left Qplus l 0.

Definition rsi_step (closes : list Q) (acc : Q * Q) (i : Z) : Q * Q :=
  let '(gains, losses) := acc in
  let change := at_or closes i 0 - at_or closes (i - 1) 0 in
  if Qlt_bool 0 change then (gains + change, losses)
  else (gains, losses - change).

Definition rsi (closes : list Q) (period : nat) : Q :=
  if (length closes <? period + 1)%nat then 50
  else
    let idx := map Z.of_nat (seq (length closes - period) period) in
    let '(gains, losses) := fold_left (rsi_step closes) idx (0, 0) in
    if Qeq_bool losses 0 then 100
    else
      let rs := gains / losses in
      100 - 100 / (1 + rs).

Definition ema (values : list Q) (period : nat) : Q :=
  match values with
  | [] => 0
  | v0 :: rest =>
      let k := 2 / (inject_Z (Z.of_nat period) + 1) in
      fold_left (fun result v => v * k + result * (1 - k)) rest v0
  end.

(** The slice is non-empty at every call made by [prepareFeatures] and
    [atr] on a history of at least 20 candles. *)
Definition sma (values : list Q) (period : nat) : Q :=
  let slice := slice_last period values in
  sum slice / inject_Z (len slice).

Fixpoint trueRanges (candles : list Candle15m) : list Q :=
  match candles with
  | prev :: ((curr :: _) as rest) =>
      Qmax (Qmax (high curr - low curr) (Qabs (high curr - close prev)))
           (Qabs (low curr - close prev))
      :: trueRanges rest
  | _ => []
  end.

Definition atr (candles : list Candle15m) (period : nat) : Q :=
  sma (trueRanges candles) period.

Definition eps : Q := 1e-10.

Section Features.
(** [Math.sqrt], [Math.sin], [Math.cos] and [Math.PI] have no exact
    rational value; the feature builder is stated for any choice. *)
Variable Math_sqrt Math_sin Math_cos : Q -> Q.
Variable Math_PI : Q.

Definition stdDev (values : list Q) : Q :=
  match values with
  | [] => 0
  | _ =>
      let n := inject_Z (len values) in
      let mean := sum values / n in
      let sqDiffs := map (fun v => (v - mean) * (v - mean)) values in
      Math_sqrt (sum sqDiffs / n)
  end.

(** 1. return_1, return_2, return_4, return_8 *)
Definition returnFeatures (closes : list Q) (lastClose : Q) : list number :=
  map (fun period =>
         let prevClose := at_or closes (len closes - 1 - period) lastClose in
         jsdiv (lastClose - prevClose) prevClose)
      [1; 2; 4; 8]%Z.

(** 2. candle_body, candle_upper, candle_lower, is_bullish *)
Definition candleFeatures (last : Candle15m) : list number :=
  let bodyRange := high last - low last + eps in
  [ jsdiv (close last - open last) bodyRange;
    jsdiv (high last - Qmax (close last) (open last)) bodyRange;
    jsdiv (Qmin (close last) (open last) - low last) bodyRange;
    Finite (if Qle_bool (open last) (close last) then 1 else 0) ].

(** 3. rsi_7, rsi_14 *)
Definition rsiFeatures (closes : list Q) : list number :=
  [ Finite (rsi closes 7); Finite (rsi closes 14) ].

(** 4. macd, macd_signal, macd_hist *)
Definition macdFeatures (closes : list Q) : list number :=
  let ema12 := ema closes 12 in
  let ema26 := ema closes 26 in
  let macdLine := ema12 - ema26 in
  let macdSignal := ema [macdLine] 9 in
  [ Finite macdLine; Finite macdSignal; Finite (macdLine - macdSignal) ].

(** 5. bb_position, bb_width *)
Definition bollingerFeatures (closes : list Q) (lastClose : Q) : list number :=
  let bbMiddle := sma closes 20 in
  let bbStd := stdDev (slice_last 20 closes) in
  let bbUpper := bbMiddle + 2 * bbStd in
  let bbLower := bbMiddle - 2 * bbStd in
  [ jsdiv (lastClose - bbLower) (bbUpper - bbLower + eps);
    jsdiv (bbUpper - bbLower) bbMiddle ].

(** 6. volatility_4, volatility_8, atr_7 *)
Definition volatilityFeatures (candles : list Candle15m) (closes : list Q)
           (lastClose : Q) : list number :=
  [ jsdiv (stdDev (slice_last 4 closes)) lastClose;
    jsdiv (stdDev (slice_last 8 closes)) lastClose;
    jsdiv (atr candles 7) lastClose ].

(** 7. volume_ratio, volume_change *)
Definition volumeFeatures (volumes : list Q) (lastVolume : Q) : list number :=
  let volumeSma8 := sma volumes 8 in
  let prevVolume := at_or volumes (len volumes - 2) lastVolume in
  [ jsdiv lastVolume (volumeSma8 + eps);
    jsdiv (lastVolume - prevVolume) (prevVolume + eps) ].

(** 8. momentum_4, roc_4 *)
Definition momentumFeatures (closes : list Q) (lastClose : Q) : list number :=
  let close4Ago := at_or closes (len closes - 5) lastClose in
  [ Finite (lastClose - close4Ago);
    jsdiv (lastClose - close4Ago) (close4Ago + eps) ].

(** 9. ema_4, ema_8, close_ema_4_ratio, close_ema_8_ratio, ema_cross *)
Definition emaFeatures (closes : list Q) (lastClose : Q) : list number :=
  let ema4 := ema closes 4 in
  let ema8 := ema closes 8 in
  [ Finite ema4; Finite ema8;
    jsdiv lastClose ema4;
    jsdiv lastClose ema8;
    Finite (if Qlt_bool ema8 ema4 then 1 else 0) ].

(** 10. zscore_8 *)
Definition zscoreFeatures (closes : list Q) (lastClose : Q) : list number :=
  let mean8 := sma closes 8 in
  let std8 := stdDev (slice_last 8 closes) in
  [ jsdiv (lastClose - mean8) (std8 + eps) ].

(** 11. hour_sin, hour_cos, quarter_sin, quarter_cos *)
Definition timeFeatures (last : Candle15m) : list number :=
  let hour := inject_Z (Utils.getUTCHours (timestamp last)) in
  let minute := inject_Z (Utils.getUTCMinutes (timestamp last)) in
  [ Finite (Math_sin ((2 * Math_PI * hour) / 24));
    Finite (Math_cos ((2 * Math_PI * hour) / 24));
    Finite (Math_sin ((2 * Math_PI * minute) / 60));
    Finite (Math_cos ((2 * Math_PI * minute) / 60)) ].

(** The features pushed before the count check, in order. *)
Definition computedFeatures (candles : list Candle15m) (last : Candle15m)
  : list number :=
  let closes := map close candles in
  let volumes := map volume candles in
  let lastClose := close last in
  let lastVolume := volume last in
  returnFeatures closes lastClose
  ++ candleFeatures last
  ++ rsiFeatures closes
  ++ macdFeatures closes
  ++ bollingerFeatures closes lastClose
  ++ volatilityFeatures candles closes lastClose
  ++ volumeFeatures volumes lastVolume
  ++ momentumFeatures closes lastClose
  ++ emaFeatures closes lastClose
  ++ zscoreFeatures closes lastClose
  ++ timeFeatures last.

(** [prepareFeatures(candles)], with the module variable [metadata]
    ([null] until a manifest is loaded) as an argument.  The result
    carries the calls made to [log.warn] and [log.debug]. *)
Definition prepareFeatures (metadata : option ModelMetadata)
           (candles : list Candle15m) : result (list number * list LogCall) :=
  if (length candles <? 20)%nat then Throw (InsufficientHistory (length candles))
  else
    match at_ candles (len candles - 1) with
    | None => Throw NoData
    | Some last =>
        let features := computedFeatures candles last in
        let expectedFeatures :=
          match metadata with
          | Some m => n_features m
          | None => length features
          end in
        let warned :=
          if (length features =? expectedFeatures)%nat then []
          else [WarnCountMismatch (length features) expectedFeatures] in
        let padded :=
          features ++ repeat (Finite 0) (expectedFeatures - length features) in
        Ok (firstn expectedFeatures padded,
            warned ++ [DebugPrepared (length padded)])
    end.

(** [predict(candles)]: [runModel] is the opaque scorer ([None] when it
    throws). *)
Definition predict (runModel : list number -> option Q)
           (metadata : option ModelMetadata) (candles : list Candle15m)
  : option Q :=
  match prepareFeatures metadata candles with
  | Throw _ => None
  | Ok (features, _) => runModel features
  end.

End Features.

End Model.

(** ** The sizing and the averages in binary64

    The same functions over the doubles the code computes with, each
    operation rounded as IEEE-754 rounds it, for the statements that
    depend on the rounding. *)

Module Binary64.
Import PrimFloat.
Local Open Scope float_scope.

(** [Math.min(a, b)]: [NaN] if either is, and [-0] below [+0]. *)
Definition Math_min (a b : float) : float :=
  if is_nan a then a
  else if is_nan b then b
  else if a <? b then a
  else if b <? a then b
  else if get_sign a then a else b.

Definition default_kellyFraction : float := 0.25.
Definition default_maxFraction : float := 0.10.

Definition kellyBetSize (probWin marketPrice kellyFraction maxFraction : float)
  : float :=
  if ((probWin <=? 0) || (1 <=? probWin))%bool then 0
  else if ((marketPrice <=? 0) || (1 <=? marketPrice))%bool then 0
  else
    let b := (1 - marketPrice) / marketPrice in
    let q := 1 - probWin in
    let fullKelly := (b * probWin - q) / b in
    if fullKelly <=? 0 then 0
    else
      let adjustedKelly := fullKelly * kellyFraction in
      Math_min adjustedKelly maxFraction.

Definition calculateBetSize (bankroll probWin marketPrice : float) : float :=
  let fraction :=
    kellyBetSize probWin marketPrice default_kellyFraction default_maxFraction in
  bankroll * fraction.

(** A length or a period as a double (exact below 2^53). *)
Fixpoint of_nat (n : nat) : float :=
  match n with
  | O => 0
  | S k => of_nat k + 1
  end.

(** [sma(values, period)]: the mean of [values.slice(-period)]. *)
Definition sma (values : list float) (period : nat) : float :=
  let slice := Model.slice_last period values in
  fold_left add slice 0 / of_nat (length slice).

(** [ema(values, period)]. *)
Definition ema (values : list float) (period : nat) : float :=
  match values with
  | [] => 0
  | first :: rest =>
      let k := 2 / (of_nat period + 1) in
      fold_left (fun result v => v * k + result * (1 - k)) rest first
  end.

End Binary64.

(** ** config.ts *)

Module Config.

(** The values read from the environment at start-up. *)
Record t : Type := {
  POSITION_SIZE_USD : Q;
  MIN_CONFIDENCE_UP : Q;
  MIN_CONFIDENCE_DOWN : Q;
  MAX_KELLY_FRACTION : Q;
  BANKROLL : Q;
  BTC_UP_TOKEN_ID : string;
  BTC_DOWN_TOKEN_ID : string;
  IS_PRODUCTION : bool
}.

Definition MAX_API_ERRORS : nat := 3.

Definition with_MAX_KELLY_FRACTION (v : Q) (c : t) : t :=
  {| POSITION_SIZE_USD := POSITION_SIZE_USD c;
     MIN_CONFIDENCE_UP := MIN_CONFIDENCE_UP c;
     MIN_CONFIDENCE_DOWN := MIN_CONFIDENCE_DOWN c;
     MAX_KELLY_FRACTION := v;
     BANKROLL := BANKROLL c;
     BTC_UP_TOKEN_ID := BTC_UP_TOKEN_ID c;
     BTC_DOWN_TOKEN_ID := BTC_DOWN_TOKEN_ID c;
     IS_PRODUCTION := IS_PRODUCTION c |}.

End Config.

(** ** priceFeed.ts *)

Module PriceFeed.
Import Model.

Record State : Type := {
  latestPrice : Q;
  lastUpdateTime : Z;
  candles15m : list Candle15m;
  currentCandle : option Candle15m;
  chainlinkFeed : bool;              (* [false] is [null] *)
  chainlinkFailureCount : nat
}.

Definition initial (feed : bool) : State :=
  {| latestPrice := 0; lastUpdateTime := 0%Z; candles15m := [];
     currentCandle := None; chainlinkFeed := feed;
     chainlinkFailureCount := 0 |}.

Definition MAX_CHAINLINK_FAILURES : nat := 3.

(** What the contract call answers: [latestRoundData()] and
    [decimals()], or a rejection (error or the 5 s timeout). *)
Inductive ChainlinkReply : Type :=
| RoundData (answer : Z) (decimals : nat)
| ChainlinkError.

Definition fetchChainlinkPrice (reply : ChainlinkReply) (st : State)
  : option Q * State :=
  if negb (chainlinkFeed st)
     || (MAX_CHAINLINK_FAILURES <=? chainlinkFailureCount st)%nat
  then (None, st)
  (* [feed.latestRoundData] and [feed.decimals] exist by the ABI *)
  else
    match reply with
    | RoundData answer decimals =>
        let price := inject_Z answer / inject_Z (10 ^ Z.of_nat decimals) in
        (Some price,
         {| latestPrice := latestPrice st;
            lastUpdateTime := lastUpdateTime st;
            candles15m := candles15m st;
            currentCandle := currentCandle st;
            chainlinkFeed := chainlinkFeed st;
            chainlinkFailureCount := 0 |})
    | ChainlinkError =>
        let failures := S (chainlinkFailureCount st) in
        (None,
         {| latestPrice := latestPrice st;
            lastUpdateTime := lastUpdateTime st;
            candles15m := candles15m st;
            currentCandle := currentCandle st;
            chainlinkFeed :=
              if (MAX_CHAINLINK_FAILURES <=? failures)%nat then false
              else chainlinkFeed st;
            chainlinkFailureCount := failures |})
    end.

(** The [setInterval] callback of [startPriceFeed]:
    [await fetchChainlinkPrice();], the returned price is dropped. *)
Definition pollChainlink (reply : ChainlinkReply) (st : State) : State :=
  snd (fetchChainlinkPrice reply st).

(** The polls of the interval, one after the other. *)
Definition pollAll (replies : list ChainlinkReply) (st : State) : State :=
  fold_left (fun s reply => pollChainlink reply s) replies st.

(** [candles15m.push(c)] followed by the shift that keeps 100 entries. *)
Definition pushCandle (c : Candle15m) (history : list Candle15m)
  : list Candle15m :=
  let pushed := history ++ [c] in
  if (100 <? length pushed)%nat then tl pushed else pushed.

(** Every candle stored in [currentCandle] is built with all its fields,
    so the [??] defaults of the update arm are never taken. *)
Definition aggregateTo15Min (ts : Z) (o h l c v : Q) (st : State) : State :=
  let windowTs := Utils.get15MinWindowStart ts in
  let fresh : Candle15m :=
    {| timestamp := windowTs; open := o; high := h; low := l;
       close := c; volume := v |} in
  let start_new (history : list Candle15m) : State :=
    {| latestPrice := latestPrice st;
       lastUpdateTime := lastUpdateTime st;
       candles15m := history;
       currentCandle := Some fresh;
       chainlinkFeed := chainlinkFeed st;
       chainlinkFailureCount := chainlinkFailureCount st |} in
  match currentCandle st with
  | None => start_new (candles15m st)
  | Some cur =>
      if negb (timestamp cur =? windowTs)%Z then
        (* a candle whose timestamp is 0 is falsy and is not saved *)
        if (timestamp cur =? 0)%Z then start_new (candles15m st)
        else start_new (pushCandle cur (candles15m st))
      else
        {| latestPrice := latestPrice st;
           lastUpdateTime := lastUpdateTime st;
           candles15m := candles15m st;
           currentCandle :=
             Some {| timestamp := timestamp cur;
                     open := open cur;
                     high := Qmax (high cur) h;
                     low := Qmin (low cur) l;
                     close := c;
                     volume := volume cur + v |};
           chainlinkFeed := chainlinkFeed st;
           chainlinkFailureCount := chainlinkFailureCount st |}
  end.

(** A 1-minute kline of the stream: [k.t], [k.o], [k.h], [k.l], [k.c], [k.v]. *)
Record Kline : Type := {
  k_t : Z; k_o : Q; k_h : Q; k_l : Q; k_c : Q; k_v : Q
}.

Definition aggregate (k : Kline) (st : State) : State :=
  aggregateTo15Min (k_t k) (k_o k) (k_h k) (k_l k) (k_c k) (k_v k) st.

(** Ticks applied one after the other, the head of the list first. *)
Definition ingest (ticks : list Kline) (st : State) : State :=
  fold_left (fun s k => aggregate k s) ticks st.

(** The ["message"] handler of [connectBinanceWS] on a kline event
    received at [now]. *)
Definition onKline (now : Z) (k : Kline) (st : State) : State :=
  aggregate k
    {| latestPrice := k_c k;
       lastUpdateTime := now;
       candles15m := candles15m st;
       currentCandle := currentCandle st;
       chainlinkFeed := chainlinkFeed st;
       chainlinkFailureCount := chainlinkFailureCount st |}.

(** [fetchHistorical15mCandles]: [Some candles] is a parsed 2xx answer
    received at [now], [None] any failure. *)
Definition fetchHistorical15mCandles (now : Z)
           (answer : option (list Candle15m)) (st : State)
  : list Candle15m * State :=
  match answer with
  | None => ([], st)
  | Some candles =>
      let seeded (price : Q) (time : Z) : State :=
        {| latestPrice := price;
           lastUpdateTime := time;
           candles15m := candles;
           currentCandle := currentCandle st;
           chainlinkFeed := chainlinkFeed st;
           chainlinkFailureCount := chainlinkFailureCount st |} in
      (candles,
       match at_ candles (len candles - 1) with
       | Some last => seeded (close last) now
       | None => seeded (latestPrice st) (lastUpdateTime st)
       end)
  end.

Definition getCurrentPrice (st : State) : Q := latestPrice st.
Definition getLastUpdateTime (st : State) : Z := lastUpdateTime st.
Definition get15MinCandles (st : State) : list Candle15m := candles15m st.

Definition isPriceFeedHealthy (now : Z) (st : State) : bool :=
  (now - lastUpdateTime st <? 60000)%Z && Qlt_bool 0 (latestPrice st).

End PriceFeed.

(** ** polymarket.ts *)

Module Polymarket.

Record OrderRequest : Type := {
  tokenID : string;
  price : Q;
  size : number;
  side : string
}.

Record OrderResponse : Type := {
  orderID : string;
  status : string
}.

Record State : Type := {
  BTC_UP_TOKEN_ID : string;
  BTC_DOWN_TOKEN_ID : string;
  totalOrders : nat;
  successfulOrders : nat;
  failedOrders : nat;
  totalVolume : Q
}.

(** Calls that leave the process towards the broker's order endpoint. *)
Inductive BrokerCall : Type :=
| SignOrder (order : OrderRequest)
| PostOrder (order : OrderRequest).

(** What signing and posting answer. *)
Inductive BrokerReply : Type :=
| SignThrows
| PostThrows                       (* network error or non-2xx *)
| Responded (response : OrderResponse).

(** The answers one call of [placeBetUp] / [placeBetDown] consumes. *)
Record PlaceEnv : Type := {
  fetchedPrices : option (Q * Q);  (* the prices endpoint; [None] fails *)
  dateNow : Z;
  brokerReply : BrokerReply
}.

Definition is_empty (s : string) : bool := String.eqb s "".

Definition getMarketPrices (fetched : option (Q * Q)) (st : State) : Q * Q :=
  if is_empty (BTC_UP_TOKEN_ID st) || is_empty (BTC_DOWN_TOKEN_ID st)
  then (0.5, 0.5)
  else match fetched with
       | Some prices => prices
       | None => (0.5, 0.5)
       end.

Definition decimal (z : Z) : string := NilZero.string_of_int (Z.to_int z).

Definition counted (st : State) : State :=
  {| BTC_UP_TOKEN_ID := BTC_UP_TOKEN_ID st;
     BTC_DOWN_TOKEN_ID := BTC_DOWN_TOKEN_ID st;
     totalOrders := S (totalOrders st);
     successfulOrders := successfulOrders st;
     failedOrders := failedOrders st;
     totalVolume := totalVolume st |}.

Definition succeeded (sizeUsd : Q) (st : State) : State :=
  {| BTC_UP_TOKEN_ID := BTC_UP_TOKEN_ID st;
     BTC_DOWN_TOKEN_ID := BTC_DOWN_TOKEN_ID st;
     totalOrders := totalOrders st;
     successfulOrders := S (successfulOrders st);
     failedOrders := failedOrders st;
     totalVolume := totalVolume st + sizeUsd |}.

Definition failed (st : State) : State :=
  {| BTC_UP_TOKEN_ID := BTC_UP_TOKEN_ID st;
     BTC_DOWN_TOKEN_ID := BTC_DOWN_TOKEN_ID st;
     totalOrders := totalOrders st;
     successfulOrders := successfulOrders st;
     failedOrders := S (failedOrders st);
     totalVolume := totalVolume st |}.

Definition is_filled (r : OrderResponse) : bool :=
  String.eqb (status r) "matched" || String.eqb (status r) "live".

(** The body shared by [placeBetUp] and [placeBetDown] once the token id
    and the quoted price of the side are known. *)
Definition placeBet (isProduction : bool) (token : string) (quoted : Q)
           (env : PlaceEnv) (sizeUsd : Q) (st : State)
  : option OrderResponse * State * list BrokerCall :=
  let priceWithSlippage := Qmin (quoted * 1.005) 0.99 in
  let shares := jsdiv sizeUsd priceWithSlippage in
  if negb isProduction then
    (Some {| orderID := "dry-run-" ++ decimal (dateNow env);
             status := "simulated" |},
     succeeded sizeUsd st, [])
  else
    let order :=
      {| tokenID := token; price := priceWithSlippage;
         size := shares; side := "BUY" |} in
    match brokerReply env with
    | SignThrows => (None, failed st, [SignOrder order])
    | PostThrows => (None, failed st, [SignOrder order; PostOrder order])
    | Responded response =>
        (Some response,
         (if is_filled response then succeeded sizeUsd st else failed st),
         [SignOrder order; PostOrder order])
    end.

Definition placeBetUp (isProduction : bool) (env : PlaceEnv) (sizeUsd : Q)
           (st : State) : option OrderResponse * State * list BrokerCall :=
  if is_empty (BTC_UP_TOKEN_ID st) then (None, st, [])
  else
    let st1 := counted st in
    let '(upPrice, _) := getMarketPrices (fetchedPrices env) st1 in
    placeBet isProduction (BTC_UP_TOKEN_ID st1) upPrice env sizeUsd st1.

Definition placeBetDown (isProduction : bool) (env : PlaceEnv) (sizeUsd : Q)
           (st : State) : option OrderResponse * State * list BrokerCall :=
  if is_empty (BTC_DOWN_TOKEN_ID st) then (None, st, [])
  else
    let st1 := counted st in
    let '(_, downPrice) := getMarketPrices (fetchedPrices env) st1 in
    placeBet isProduction (BTC_DOWN_TOKEN_ID st1) downPrice env sizeUsd st1.




(** [setMarketIds(marketId, upTokenId, downTokenId)]; the market id is
    kept for the log only. *)
Definition setMarketIds (upTokenId downTokenId : string) (st : State) : State :=
  {| BTC_UP_TOKEN_ID := upTokenId;
     BTC_DOWN_TOKEN_ID := downTokenId;
     totalOrders := totalOrders st;
     successfulOrders := successfulOrders st;
     failedOrders := failedOrders st;
     totalVolume := totalVolume st |}.

End Polymarket.

(** [checkLiquidity] of polymarket.ts, on the asks of the fetched order
    book ([None]: the book could not be fetched), each a price and a size. *)

Module Liquidity.

Fixpoint walk (asks : list (Q * Q)) (maxAcceptablePrice sizeUsd : Q)
         (totalSize totalValue : Q) : Q * Q :=
  match asks with
  | [] => (totalSize, totalValue)
  | (price, size) :: rest =>
      if Qlt_bool maxAcceptablePrice price then (totalSize, totalValue)
      else
        let totalSize' := totalSize + size in
        let totalValue' := totalValue + price * size in
        if Qle_bool sizeUsd totalValue' then (totalSize', totalValue')
        else walk rest maxAcceptablePrice sizeUsd totalSize' totalValue'
  end.

Definition default_maxSlippage : Q := 0.01.

(** The [sufficient] field of the result. *)
Definition checkLiquidity (orderBook : option (list (Q * Q)))
           (sizeUsd maxSlippage : Q) : bool :=
  match orderBook with
  | None | Some [] => false
  | Some (((bestAskPrice, _) :: _) as asks) =>
      let maxAcceptablePrice := bestAskPrice * (1 + maxSlippage) in
      let '(_, totalValue) := walk asks maxAcceptablePrice sizeUsd 0 0 in
      Qle_bool sizeUsd totalValue
  end.

End Liquidity.

(** ** index.ts *)

Module Bot.
Import Model.

Record State : Type := {
  lastTradedWindowId : string;
  apiErrorCount : nat;
  totalPredictions : nat;
  upBets : nat;
  downBets : nat;
  skippedBets : nat
}.

Definition initial : State :=
  {| lastTradedWindowId := ""; apiErrorCount := 0; totalPredictions := 0;
     upBets := 0; downBets := 0; skippedBets := 0 |}.

(** What the outside world answers during one [executeTrade]. *)
Record CycleEnv : Type := {
  windowIdAtCheck : string;      (* [get15MinWindowId()] in [canTrade] *)
  windowIdAtRecord : string;     (* [get15MinWindowId()] in [recordTrade] *)
  clock : Z;                     (* [Date.now()] in [isPriceFeedHealthy] *)
  modelAnswer : option Q;        (* [predict(candles)], [None] when it throws *)
  quotedPrices : option (Q * Q); (* the prices endpoint, step 4 *)
  orderBook : option (list (Q * Q));
  place : Polymarket.PlaceEnv
}.

Inductive Verdict : Type :=
| Allowed
| TooManyApiErrors          (* "API 错误过多，已停止" *)
| WindowAlreadyTraded       (* "窗口 ... 已交易" *)
| FeedUnhealthy.            (* "价格源异常" *)

Definition canTrade (env : CycleEnv) (feed : PriceFeed.State) (st : State)
  : Verdict :=
  if (Config.MAX_API_ERRORS <=? apiErrorCount st)%nat then TooManyApiErrors
  else if String.eqb (windowIdAtCheck env) (lastTradedWindowId st)
  then WindowAlreadyTraded
  else if negb (PriceFeed.isPriceFeedHealthy (clock env) feed)
  then FeedUnhealthy
  else Allowed.

Definition recordTrade (env : CycleEnv) (st : State) : State :=
  {| lastTradedWindowId := windowIdAtRecord env;
     apiErrorCount := apiErrorCount st;
     totalPredictions := totalPredictions st;
     upBets := upBets st;
     downBets := downBets st;
     skippedBets := skippedBets st |}.

Definition recordApiError (st : State) : State :=
  {| lastTradedWindowId := lastTradedWindowId st;
     apiErrorCount := S (apiErrorCount st);
     totalPredictions := totalPredictions st;
     upBets := upBets st;
     downBets := downBets st;
     skippedBets := skippedBets st |}.

Definition predicted (st : State) : State :=
  {| lastTradedWindowId := lastTradedWindowId st;
     apiErrorCount := apiErrorCount st;
     totalPredictions := S (totalPredictions st);
     upBets := upBets st;
     downBets := downBets st;
     skippedBets := skippedBets st |}.

Definition skipped (st : State) : State :=
  {| lastTradedWindowId := lastTradedWindowId st;
     apiErrorCount := apiErrorCount st;
     totalPredictions := totalPredictions st;
     upBets := upBets st;
     downBets := downBets st;
     skippedBets := S (skippedBets st) |}.

Definition betUp (st : State) : State :=
  {| lastTradedWindowId := lastTradedWindowId st;
     apiErrorCount := apiErrorCount st;
     totalPredictions := totalPredictions st;
     upBets := S (upBets st);
     downBets := downBets st;
     skippedBets := skippedBets st |}.

Definition betDown (st : State) : State :=
  {| lastTradedWindowId := lastTradedWindowId st;
     apiErrorCount := apiErrorCount st;
     totalPredictions := totalPredictions st;
     upBets := upBets st;
     downBets := S (downBets st);
     skippedBets := skippedBets st |}.

Inductive Direction : Type := Up | Down.

(** The names bound in the module scope of [index.ts]: what it imports
    (index.ts:15-52) and what it declares itself.  [get15MinWindowStart]
    is exported by [utils.ts] but is not among the imports. *)
Definition moduleScope : list string :=
  ([ "startPriceFeed"; "stopPriceFeed"; "get15MinCandles"; "getCurrentPrice";
    "isPriceFeedHealthy"; "fetchHistorical15mCandles";
    "loadModel"; "isModelLoaded"; "predict";
    "placeBetUp"; "placeBetDown"; "getMarketPrices"; "findBTCMarket";
    "getPolyStats"; "checkLiquidity";
    "MIN_CONFIDENCE_UP"; "MIN_CONFIDENCE_DOWN"; "BANKROLL"; "MAX_API_ERRORS";
    "IS_PRODUCTION"; "BTC_UP_TOKEN_ID"; "BTC_DOWN_TOKEN_ID";
    "log"; "sleep"; "calculateBetSize"; "formatUsd"; "formatPct";
    "get15MinWindowId"; "msUntilNextWindow"; "isOptimalBettingTime";
    "getNext15MinWindowStart"; "formatETTime";
    "isRunning"; "lastTradedWindowId"; "apiErrorCount"; "totalPredictions";
    "upBets"; "downBets"; "skippedBets";
    "canTrade"; "recordTrade"; "recordApiError"; "executeTrade"; "logStats";
    "initialize"; "mainLoop"; "shutdown"; "main" ])%string.

(** Reading an identifier that is bound neither in the module nor as a
    global of the runtime throws a [ReferenceError]. *)
Definition bound (name : string) : bool :=
  existsb (String.eqb name) moduleScope.

(** How a cycle ended, as its log lines tell, or the error it threw. *)
Inductive Outcome : Type :=
| Refused (why : Verdict)                   (* "跳过: reason" *)
| TooFewCandles (got : nat)                 (* "K 线不足" *)
| PredictFailed                             (* "预测失败" *)
| LowVolatility                             (* "波动率过低" *)
| KellyTooSmall (d : Direction)             (* "Kelly 仓位过小" *)
| Illiquid (d : Direction)                  (* "流动性不足，跳过" *)
| OrderSuccess (d : Direction) (r : Polymarket.OrderResponse)
| OrderFailed (d : Direction)               (* [ORDER_FAILED] *)
| NoEdge                                    (* [SKIP] *)
| Threw (name : string).                    (* ReferenceError: [name] is not defined *)

(** Calls observed during a cycle. *)
Inductive Event : Type :=
| CallPlaceBetUp (betSize : Q)
| CallPlaceBetDown (betSize : Q)
| CallBroker (c : Polymarket.BrokerCall).

Record Cycle : Type := {
  bot : State;
  poly : Polymarket.State;
  outcome : Outcome;
  events : list Event
}.

Definition done (st : State) (ps : Polymarket.State) (o : Outcome) : Cycle :=
  {| bot := st; poly := ps; outcome := o; events := [] |}.

(** The two arms of step 7 after the side is chosen: size, liquidity check,
    submission and the record of its result.  [placeBetUp] and
    [placeBetDown] catch every error themselves, so the [catch] arm of
    [executeTrade] is never entered. *)
Definition submit (cfg : Config.t) (env : CycleEnv) (d : Direction)
           (probWin marketPrice : Q) (st : State) (ps : Polymarket.State)
  : Cycle :=
  let betSize := Utils.calculateBetSize (Config.BANKROLL cfg) probWin marketPrice in
  if Qlt_bool betSize 1 then done st ps (KellyTooSmall d)
  else if negb (Liquidity.checkLiquidity (orderBook env) betSize
                                         Liquidity.default_maxSlippage)
  then done (skipped st) ps (Illiquid d)
  else
    let '(result, ps', calls) :=
      match d with
      | Up => Polymarket.placeBetUp (Config.IS_PRODUCTION cfg) (place env) betSize ps
      | Down => Polymarket.placeBetDown (Config.IS_PRODUCTION cfg) (place env) betSize ps
      end in
    let call :=
      match d with
      | Up => CallPlaceBetUp betSize
      | Down => CallPlaceBetDown betSize
      end in
    match result with
    | Some r =>
        {| bot := recordTrade env st; poly := ps';
           outcome := OrderSuccess d r;
           events := call :: map CallBroker calls |}
    | None =>
        {| bot := recordApiError st; poly := ps';
           outcome := OrderFailed d;
           events := call :: map CallBroker calls |}
    end.

(** [executeTrade()], index.ts:104-260, step by step.  An exception that
    leaves the function is the outcome [Threw]: the module variables keep
    what was written before it. *)
Definition executeTrade (cfg : Config.t) (env : CycleEnv)
           (feed : PriceFeed.State) (st0 : State) (ps : Polymarket.State)
  : Cycle :=
  let st := predicted st0 in
  (* 1 *)
  match canTrade env feed st with
  | Allowed =>
      (* 2 *)
      let candles := PriceFeed.get15MinCandles feed in
      if (length candles <? 20)%nat
      then done (skipped st) ps (TooFewCandles (length candles))
      else if negb (bound "get15MinWindowStart")
      then
        (* index.ts:126: [const currentWindow = get15MinWindowStart()]
           throws; nothing catches it inside [executeTrade].  The log
           lines 130-131 after it call [formatETTime], which is imported
           but which [utils.ts] does not export. *)
        done st ps (Threw "get15MinWindowStart")
      else
        (* 3 *)
        match modelAnswer env with
        | None => done (skipped st) ps PredictFailed
        | Some probUp =>
            let probDown := 1 - probUp in
            (* 4 *)
            let '(upPrice, downPrice) :=
              Polymarket.getMarketPrices (quotedPrices env) ps in
            (* 5 *)
            let upEdge := probUp - upPrice in
            let downEdge := probDown - downPrice in
            (* 6 *)
            let quiet :=
              match at_ candles (len candles - 1) with
              | Some lastCandle =>
                  number_ltb
                    (jsdiv (high lastCandle - low lastCandle) (close lastCandle))
                    0.001
              | None => false
              end in
            if quiet then done (skipped st) ps LowVolatility
            (* 7 *)
            else if Qlt_bool (Config.MIN_CONFIDENCE_UP cfg) probUp
                    && Qlt_bool 0.02 upEdge
            then submit cfg env Up probUp upPrice (betUp st) ps
            else if Qlt_bool probUp (Config.MIN_CONFIDENCE_DOWN cfg)
                    && Qlt_bool 0.02 downEdge
            then submit cfg env Down probDown downPrice (betDown st) ps
            else done (skipped st) ps NoEdge
        end
  | refusal => done (skipped st) ps (Refused refusal)
  end.

(** A run of decision cycles: each cycle sees the feed as it is then, and
    the module variables as the cycle before left them, thrown or not. *)
Fixpoint run (cfg : Config.t) (cycles : list (CycleEnv * PriceFeed.State))
         (st : State) (ps : Polymarket.State) : list Cycle :=
  match cycles with
  | [] => []
  | (env, feed) :: rest =>
      let c := executeTrade cfg env feed st ps in
      c :: run cfg rest (bot c) (poly c)
  end.






End Bot.

(** ** scripts/collectData.ts *)

Module CollectData.

Record Candle : Type := {
  timestamp : Z;          (* [Date], as its time value *)
  open : Q;
  high : Q;
  low : Q;
  close : Q;
  volume : Q;
  quote_volume : Q;
  trades : Z
}.

(** [array.sort((a, b) => a.timestamp.getTime() - b.timestamp.getTime())]:
    the sort is stable, so its result is the one of a stable insertion. *)
Fixpoint insertByTime (c : Candle) (sorted : list Candle) : list Candle :=
  match sorted with
  | [] => [c]
  | y :: rest =>
      if (timestamp c <=? timestamp y)%Z then c :: sorted
      else y :: insertByTime c rest
  end.

Definition sortByTime (candles : list Candle) : list Candle :=
  fold_right insertByTime [] candles.

(** The [Map] from the ISO string of a window start to the candles of the
    window, in insertion order; the string is kept as the time value it
    prints.  [windows.get(key)!.push(candle)], after
    [windows.set(key, [])] for a key not seen before. *)
Fixpoint addToWindow (key : Z) (c : Candle) (windows : list (Z * list Candle))
  : list (Z * list Candle) :=
  match windows with
  | [] => [(key, [c])]
  | (k, windowCandles) :: rest =>
      if (k =? key)%Z then (k, windowCandles ++ [c]) :: rest
      else (k, windowCandles) :: addToWindow key c rest
  end.

Definition windowKey (c : Candle) : Z := Utils.get15MinWindowStart (timestamp c).

Definition groupByWindow (candles : list Candle) : list (Z * list Candle) :=
  fold_left (fun windows c => addToWindow (windowKey c) c windows) candles [].

(** The body of the loop over [windows.entries()]: nothing for an empty
    window, else the candle pushed to [result]. *)
Definition aggregateWindow (entry : Z * list Candle) : list Candle :=
  let '(windowStart, windowCandles) := entry in
  match sortByTime windowCandles with
  | [] => []
  | first :: others =>
      let sorted := first :: others in
      [ {| timestamp := windowStart;
           open := open first;
           high := fold_left Qmax (map high others) (high first);
           low := fold_left Qmin (map low others) (low first);
           close := close (last sorted first);
           volume := fold_left (fun sum c => sum + volume c) sorted 0;
           quote_volume := fold_left (fun sum c => sum + quote_volume c) sorted 0;
           trades := fold_left (fun sum c => (sum + trades c)%Z) sorted 0%Z |} ]
  end.

Definition resampleTo15m (candles : list Candle) : list Candle :=
  match candles with
  | [] => []
  | _ => sortByTime (flat_map aggregateWindow (groupByWindow candles))
  end.

(** A stored 1-minute candle as the kline the stream delivers for it. *)
Definition asKline (c : Candle) : PriceFeed.Kline :=
  {| PriceFeed.k_t := timestamp c; PriceFeed.k_o := open c;
     PriceFeed.k_h := high c; PriceFeed.k_l := low c;
     PriceFeed.k_c := close c; PriceFeed.k_v := volume c |}.

End CollectData.

(** ** Concrete inputs

    Rational stand-ins for [Math.sqrt], [Math.sin], [Math.cos] and
    [Math.PI], good to about ten digits, so that the feature builder can be
    run; and a small market on which the cycle can be run. *)

Module Examples.
Import Model.

Definition sqrt_approx (x : Q) : Q :=
  inject_Z (Z.sqrt (Qnum x * 10 ^ 20 / Zpos (Qden x))) / inject_Z (10 ^ 10).

Definition PI_approx : Q := 3.14159265358979.

Fixpoint taylor (terms : nat) (x2 term : Q) (k : Z) : Q :=
  match terms with
  | O => 0
  | S n =>
      term + taylor n x2 (Qred (- term * x2 / inject_Z ((k + 1) * (k + 2)))) (k + 2)
  end.

Definition sin_approx (x : Q) : Q := taylor 14 (x * x) x 1.
Definition cos_approx (x : Q) : Q := taylor 14 (x * x) 1 0.

Definition features (metadata : option ModelMetadata) (candles : list Candle15m)
  : result (list number * list LogCall) :=
  prepareFeatures sqrt_approx sin_approx cos_approx PI_approx metadata candles.

(** 22:15 UTC on 14 November 2023, a quarter-hour boundary. *)
Definition t0 : Z := 1700000100000.

Definition candleAt (i : nat) : Candle15m :=
  let d := inject_Z (Z.of_nat i) in
  {| timestamp := t0 + 900000 * Z.of_nat i;
     open := 100 + d; high := 102 + d; low := 99 + d; close := 101 + d;
     volume := 10 |}.

(** Twenty closed candles with slowly rising closes. *)
Definition rising20 : list Candle15m := map candleAt (seq 0 20).

(** The same history after a candle that closed at zero. *)
Definition zeroClose : Candle15m :=
  {| timestamp := t0 + 900000 * 18; open := 0; high := 0; low := 0;
     close := 0; volume := 0 |}.

Definition withZeroClose : list Candle15m :=
  firstn 18 rising20 ++ [zeroClose; candleAt 19].

Definition manifest (n : nat) : option ModelMetadata :=
  Some {| feature_names := []; n_features := n |}.

(** Two 1-minute klines of the window that starts at [t0]. *)
Definition tickA : PriceFeed.Kline :=
  {| PriceFeed.k_t := t0 + 60000; PriceFeed.k_o := 100; PriceFeed.k_h := 105;
     PriceFeed.k_l := 99; PriceFeed.k_c := 104; PriceFeed.k_v := 3 |}.

Definition tickB : PriceFeed.Kline :=
  {| PriceFeed.k_t := t0 + 120000; PriceFeed.k_o := 104; PriceFeed.k_h := 106;
     PriceFeed.k_l := 98; PriceFeed.k_c := 101; PriceFeed.k_v := 2 |}.

(** A feed seeded with [rising20] and updated at [now]. *)
Definition feedAt (now : Z) : PriceFeed.State :=
  {| PriceFeed.latestPrice := 120;
     PriceFeed.lastUpdateTime := now;
     PriceFeed.candles15m := rising20;
     PriceFeed.currentCandle := None;
     PriceFeed.chainlinkFeed := true;
     PriceFeed.chainlinkFailureCount := 0 |}.


Definition market : Polymarket.State :=
  {| Polymarket.BTC_UP_TOKEN_ID := "up-token";
     Polymarket.BTC_DOWN_TOKEN_ID := "down-token";
     Polymarket.totalOrders := 0;
     Polymarket.successfulOrders := 0;
     Polymarket.failedOrders := 0;
     Polymarket.totalVolume := 0 |}.


(** A cycle in window [w] at time [now] in which the model says 0.60 for
    Up, both sides are quoted at 0.50, the book is deep, and the broker
    answers [reply]. *)
Definition qualifying (w : string) (now : Z) (reply : Polymarket.BrokerReply)
  : Bot.CycleEnv * PriceFeed.State :=
  ({| Bot.windowIdAtCheck := w;
      Bot.windowIdAtRecord := w;
      Bot.clock := now + 1000;
      Bot.modelAnswer := Some 0.60;
      Bot.quotedPrices := Some (0.50, 0.50);
      Bot.orderBook := Some [(0.50, 1000)];
      Bot.place :=
        {| Polymarket.fetchedPrices := Some (0.50, 0.50);
           Polymarket.dateNow := now + 2000;
           Polymarket.brokerReply := reply |} |},
   feedAt now).

Definition rejected : Polymarket.OrderResponse :=
  {| Polymarket.orderID := "0xdef"; Polymarket.status := "rejected" |}.

(** The qualifying cycle of the [i]-th quarter hour after [t0], or the
    same window [i] times over when the window id is held fixed. *)
Definition windowIds : list string :=
  ["20231114_2215"; "20231114_2230"; "20231114_2245"; "20231114_2300";
   "20231114_2315"]%string.

Definition inWindow (i : nat) (reply : Polymarket.BrokerReply)
  : Bot.CycleEnv * PriceFeed.State :=
  qualifying (nth i windowIds ""%string) (t0 + 900000 * Z.of_nat i) reply.



(** Stored 1-minute candles: [offset] is the distance of the candle's
    minute from [t0], which is the start of a window. *)
Definition minute (offset : Z) (o h l c v : Q) (n : Z) : CollectData.Candle :=
  {| CollectData.timestamp := t0 + offset;
     CollectData.open := o; CollectData.high := h; CollectData.low := l;
     CollectData.close := c; CollectData.volume := v;
     CollectData.quote_volume := v * c; CollectData.trades := n |}.

(** Two minutes of the window that starts at [t0], the later one first. *)
Definition oneWindow : list CollectData.Candle :=
  [ minute 60000 100.5 102 100 101 3 25;
    minute 0 100 101 99 100.5 2 10 ].

(** The same after a minute of the next window. *)
Definition stored : list CollectData.Candle :=
  minute 960000 101 103 100 102 5 40 :: oneWindow.

End Examples.

(** ** Vocabulary of the properties *)

Section Vocabulary.
Import Model PriceFeed.

(** [m] is the greatest (resp. least) element of [xs], up to [==]. *)
Definition is_max (m : Q) (xs : list Q) : Prop :=
  Forall (fun x => x <= m) xs /\ Exists (fun x => x == m) xs.

Definition is_min (m : Q) (xs : list Q) : Prop :=
  Forall (fun x => m <= x) xs /\ Exists (fun x => x == m) xs.

Definition in_window (W : Z) (k : Kline) : Prop :=
  Utils.get15MinWindowStart (k_t k) = W.


(** The values of the open candle that were there before the ticks of
    window [W] arrive: none unless the open candle is already that of [W]. *)
Definition carried (f : Candle15m -> Q) (W : Z) (st : State) : list Q :=
  match currentCandle st with
  | Some cur => if (timestamp cur =? W)%Z then [f cur] else []
  | None => []
  end.




(** A candle as an exchange reports it, and one whose close is not zero. *)
Definition sane (c : Candle15m) : Prop :=
  low c <= high c /\ 0 <= close c /\ 0 <= volume c.

Definition priced (c : Candle15m) : Prop :=
  low c <= high c /\ 0 < close c /\ 0 <= volume c.

Definition finite (x : number) : Prop := is_finite x = true.

(** The features whose denominator carries the epsilon. *)
Definition guarded (Math_sqrt : Q -> Q) (candles : list Candle15m) (last : Candle15m) : Prop :=
  let closes := map close candles in
  let volumes := map volume candles in
  Forall finite (candleFeatures last)
  /\ (exists bb_position bb_width,
         bollingerFeatures Math_sqrt closes (close last) = [bb_position; bb_width]
         /\ finite bb_position)
  /\ Forall finite (volumeFeatures volumes (volume last))
  /\ Forall finite (momentumFeatures closes (close last))
  /\ Forall finite (zscoreFeatures Math_sqrt closes (close last)).

End Vocabulary.

Section ResamplingVocabulary.
Import CollectData.

(** [a] is not later than [b]. *)
Definition earlier (a b : Candle) : Prop := (timestamp a <= timestamp b)%Z.

(** The candles of the window that starts at [k], in the order of the input. *)
Definition members (k : Z) (candles : list Candle) : list Candle :=
  filter (fun c => (windowKey c =? k)%Z) candles.

(** The map keeps one entry per window, each entry holds at least one
    candle, and a candle sits under the start of its own window. *)
Definition well_keyed (windows : list (Z * list Candle)) : Prop :=
  NoDup (map fst windows)
  /\ Forall (fun entry => snd entry <> []
                          /\ Forall (fun c => windowKey c = fst entry) (snd entry))
            windows.

(** The total of a list of counts, as [reduce] adds them. *)
Definition count (l : list Z) : Z := fold_left Z.add l 0%Z.

End ResamplingVocabulary.

Section RetryVocabulary.
Import Utils.

(** The delays slept before the attempts [from + 1 .. from + n]. *)
Definition backoff (baseDelay : Z) (from n : nat) : list Z :=
  map (fun k => (baseDelay * 2 ^ Z.of_nat k)%Z) (seq from n).

End RetryVocabulary.

Section OrderVocabulary.
Import Polymarket.


(** What a production call of [placeBetUp] / [placeBetDown] sends for the
    token [token] quoted at [quoted], and what it leaves behind. *)
Definition sends (token : string) (quoted sizeUsd : Q) (env : PlaceEnv) (st : State)
           (outcome : option OrderResponse * State * list BrokerCall) : Prop :=
  let '(result, st', calls) := outcome in
  exists order,
    tokenID order = token
    /\ side order = "BUY"%string
    /\ price order = Qmin (quoted * 1.005) 0.99
    /\ size order = jsdiv sizeUsd (price order)
    /\ (0 < quoted ->
        exists shares,
          size order = Finite shares /\ shares == sizeUsd / price order)
    /\ (calls = [SignOrder order] \/ calls = [SignOrder order; PostOrder order])
    /\ (calls = [SignOrder order] <-> brokerReply env = SignThrows)
    /\ totalOrders st' = S (totalOrders st)
    /\ (forall r, result = Some r <-> brokerReply env = Responded r)
    /\ (result = None ->
        failedOrders st' = S (failedOrders st)
        /\ successfulOrders st' = successfulOrders st
        /\ totalVolume st' = totalVolume st).

End OrderVocabulary.

Section LiquidityVocabulary.
Import Liquidity.

(** The value of asks taken in order, on top of [totalValue]. *)
Definition worth (totalValue : Q) (asks : list (Q * Q)) : Q :=
  fold_left (fun acc ask => acc + fst ask * snd ask) asks totalValue.

End LiquidityVocabulary.

Section ChainlinkVocabulary.
Import PriceFeed.

(** The latest replies are [suffix]. *)
Definition ends_with (suffix replies : list ChainlinkReply) : Prop :=
  exists pre, replies = pre ++ suffix.

(** Three failed polls in a row somewhere in the list. *)
Definition three_in_a_row (replies : list ChainlinkReply) : Prop :=
  exists pre post,
    replies = pre ++ [ChainlinkError; ChainlinkError; ChainlinkError] ++ post.

(** What the state knows of the replies seen so far. *)
Definition tracks (replies : list ChainlinkReply) (st : State) : Prop :=
  (chainlinkFeed st = true
   /\ ~ three_in_a_row replies
   /\ ((chainlinkFailureCount st = 0%nat /\ ~ ends_with [ChainlinkError] replies)
       \/ (chainlinkFailureCount st = 1%nat
           /\ ends_with [ChainlinkError] replies
           /\ ~ ends_with [ChainlinkError; ChainlinkError] replies)
       \/ (chainlinkFailureCount st = 2%nat
           /\ ends_with [ChainlinkError; ChainlinkError] replies)))
  \/ (chainlinkFeed st = false /\ three_in_a_row replies).

End ChainlinkVocabulary.

(** * Properties *)

Section KellyFacts.
Import Utils.

Lemma Qle_bool_false (x y : Q) : Qle_bool x y = false -> y < x.
Proof.
  intros H. apply Qnot_le_lt. intros Hle.
  apply Qle_bool_iff in Hle. congruence.
Qed.

Lemma odds_pos (m : Q) : 0 < m -> m < 1 -> 0 < odds m.
Proof.
  intros H0 H1. unfold odds.
  apply Qlt_shift_div_l; [assumption | lra].
Qed.

(** The full Kelly fraction in closed form: [(p - m) / (1 - m)]. *)
Lemma fullKelly_closed (p m : Q) :
  0 < m -> m < 1 -> fullKelly p m == (p - m) / (1 - m).
Proof.
  intros H0 H1. unfold fullKelly, odds. field. lra.
Qed.

Lemma fullKelly_mono (p1 p2 m : Q) :
  0 < m -> m < 1 -> p1 <= p2 -> fullKelly p1 m <= fullKelly p2 m.
Proof.
  intros H0 H1 Hp.
  rewrite !fullKelly_closed by assumption.
  unfold Qdiv. apply Qmult_le_compat_r; [lra |].
  apply Qlt_le_weak, Qinv_lt_0_compat. lra.
Qed.

End KellyFacts.

Section KellySizing.
Import PrimFloat.
Import Utils.

Lemma kelly_regular (p m kf mf : Q) :
  0 < p -> p < 1 -> 0 < m -> m < 1 ->
  kellyBetSize p m kf mf =
  (if Qle_bool (fullKelly p m) 0 then 0 else Qmin (fullKelly p m * kf) mf).
Proof.
  intros Hp0 Hp1 Hm0 Hm1. unfold kellyBetSize.
  assert (E1 : Qle_bool p 0 = false).
  { destruct (Qle_bool p 0) eqn:E; [apply Qle_bool_iff in E; lra | reflexivity]. }
  assert (E2 : Qle_bool 1 p = false).
  { destruct (Qle_bool 1 p) eqn:E; [apply Qle_bool_iff in E; lra | reflexivity]. }
  assert (E3 : Qle_bool m 0 = false).
  { destruct (Qle_bool m 0) eqn:E; [apply Qle_bool_iff in E; lra | reflexivity]. }
  assert (E4 : Qle_bool 1 m = false).
  { destruct (Qle_bool 1 m) eqn:E; [apply Qle_bool_iff in E; lra | reflexivity]. }
  rewrite E1, E2, E3, E4. reflexivity.
Qed.

Lemma kelly_degenerate (p m kf mf : Q) :
  p <= 0 \/ 1 <= p \/ m <= 0 \/ 1 <= m -> kellyBetSize p m kf mf = 0.
Proof.
  intros H. unfold kellyBetSize.
  destruct (Qle_bool p 0) eqn:E1; [reflexivity |].
  destruct (Qle_bool 1 p) eqn:E2; [reflexivity |].
  destruct (Qle_bool m 0) eqn:E3; [reflexivity |].
  destruct (Qle_bool 1 m) eqn:E4; [reflexivity |].
  apply Qle_bool_false in E1, E2, E3, E4.
  destruct H as [H | [H | [H | H]]]; lra.
Qed.

Lemma kelly_capped (p m kf mf : Q) : 0 <= mf -> kellyBetSize p m kf mf <= mf.
Proof.
  intros Hmf. unfold kellyBetSize.
  destruct (_ || _); [assumption |].
  destruct (_ || _); [assumption |].
  cbv zeta. destruct (Qle_bool _ 0); [assumption |].
  apply Q.le_min_r.
Qed.

Lemma kelly_nonneg (p m kf mf : Q) :
  0 <= kf -> 0 <= mf -> 0 <= kellyBetSize p m kf mf.
Proof.
  intros Hkf Hmf. unfold kellyBetSize.
  destruct (_ || _); [lra |].
  destruct (_ || _); [lra |].
  cbv zeta. destruct (Qle_bool _ 0) eqn:E; [lra |].
  apply Qle_bool_false in E.
  apply Q.min_glb; [| assumption].
  apply Qmult_le_0_compat; lra.
Qed.

(** C3, as the code has it.  [kellyBetSize(probWin, marketPrice)] is 0
  when [probWin] or [marketPrice] is at or outside (0,1), and when the
  full Kelly fraction [f = (b*p - (1-p))/b], [b = (1-marketPrice)/marketPrice],
  is not positive; otherwise it is [min(f * 0.25, 0.10)]: so it is in
  exact arithmetic and so it is in doubles, each operation rounded.  The
  reference call [calculateBetSize(1000, 0.60, 0.50)] is 50 in exact
  arithmetic and 49.999999999999986 in the doubles the code computes
  with. *)
Theorem kelly_zero_cases_and_reference :
(forall probWin marketPrice : Q,
    let b := (1 - marketPrice) / marketPrice in
    let f := (b * probWin - (1 - probWin)) / b in
    let size :=
      kellyBetSize probWin marketPrice default_kellyFraction default_maxFraction in
    ((probWin <= 0 \/ 1 <= probWin \/ marketPrice <= 0 \/ 1 <= marketPrice) ->
     size == 0)
    /\ (f <= 0 -> size == 0)
    /\ (0 < probWin -> probWin < 1 -> 0 < marketPrice -> marketPrice < 1 ->
        0 < f -> size == Qmin (0.25 * f) 0.10))
/\ (forall probWin marketPrice : PrimFloat.float,
       let b := ((1 - marketPrice) / marketPrice)%float in
       let f := ((b * probWin - (1 - probWin)) / b)%float in
       let size := Binary64.kellyBetSize probWin marketPrice 0.25 0.10 in
       let degenerate :=
         ((probWin <=? 0)%float || (1 <=? probWin)%float
          || (marketPrice <=? 0)%float || (1 <=? marketPrice)%float)%bool in
       (degenerate = true -> size = 0%float)
       /\ ((f <=? 0)%float = true -> size = 0%float)
       /\ (degenerate = false -> (f <=? 0)%float = false ->
           size = Binary64.Math_min (f * 0.25) 0.10))
/\ calculateBetSize 1000 0.60 0.50 == 50
/\ Binary64.calculateBetSize 1000 0.60 0.50 = 49.999999999999986%float.
Proof.
split; [| split; [| split; [vm_compute; reflexivity | reflexivity]]].
- intros p m b f size. subst size.
  assert (Hf : f = fullKelly p m) by reflexivity.
  split; [| split].
  + intros H. rewrite (kelly_degenerate _ _ _ _ H). reflexivity.
  + intros Hle.
    destruct (Qlt_le_dec 0 p) as [Hp0 | Hp0];
      [| rewrite kelly_degenerate by auto; reflexivity].
    destruct (Qlt_le_dec p 1) as [Hp1 | Hp1];
      [| rewrite kelly_degenerate by auto; reflexivity].
    destruct (Qlt_le_dec 0 m) as [Hm0 | Hm0];
      [| rewrite kelly_degenerate by auto; reflexivity].
    destruct (Qlt_le_dec m 1) as [Hm1 | Hm1];
      [| rewrite kelly_degenerate by auto; reflexivity].
    rewrite kelly_regular by assumption. rewrite <- Hf.
    apply Qle_bool_iff in Hle. rewrite Hle. reflexivity.
  + intros Hp0 Hp1 Hm0 Hm1 Hpos.
    rewrite kelly_regular by assumption. rewrite <- Hf.
    destruct (Qle_bool f 0) eqn:E; [apply Qle_bool_iff in E; lra |].
    unfold default_kellyFraction, default_maxFraction.
    rewrite (Qmult_comm f). reflexivity.
- intros p m b f size degenerate. subst size degenerate b f.
  unfold Binary64.kellyBetSize.
  destruct (p <=? 0)%float, (1 <=? p)%float, (m <=? 0)%float, (1 <=? m)%float;
    cbn [orb]; cbv zeta;
    repeat split; try reflexivity; try discriminate;
    intros; try discriminate;
    match goal with
    | H : (?x <=? 0)%float = _ |- _ => rewrite H; reflexivity
    end.
Qed.

(** The reference value in doubles: [b * p - q] is [0.6 - 0.4], which
    rounds below 0.2, and the result falls short of 50. *)
Lemma kelly_reference_counterexample :
  Binary64.calculateBetSize 1000 0.60 0.50 <> 50%float
  /\ (Binary64.calculateBetSize 1000 0.60 0.50 <? 50)%float = true
  /\ (0.60 - (1 - 0.60) <? 0.20)%float = true.
Proof.
  split; [| split; vm_compute; reflexivity].
  intros H.
  assert (E : (Binary64.calculateBetSize 1000 0.60 0.50 <? 50)%float
              = (50 <? 50)%float) by (rewrite H; reflexivity).
  vm_compute in E. discriminate E.
Qed.

Lemma kelly_zero_cases_and_reference_witness :
kellyBetSize 0 0.5 default_kellyFraction default_maxFraction == 0
/\ kellyBetSize 0.4 0.5 default_kellyFraction default_maxFraction == 0
/\ kellyBetSize 0.6 0.5 default_kellyFraction default_maxFraction
   == Qmin (0.25 * (((1 - 0.5) / 0.5 * 0.6 - (1 - 0.6)) / ((1 - 0.5) / 0.5))) 0.10.
Proof.
split; [| split].
- destruct (proj1 kelly_zero_cases_and_reference 0 0.5) as [H _].
  apply H. left. vm_compute. discriminate.
- destruct (proj1 kelly_zero_cases_and_reference 0.4 0.5) as [_ [H _]].
  apply H. vm_compute. discriminate.
- destruct (proj1 kelly_zero_cases_and_reference 0.6 0.5) as [_ [_ H]].
  apply H; reflexivity.
Defined.

(** The positive-edge region reaches [probWin = 1], where the boundary
    check returns 0: the fraction falls from the ceiling to nothing. *)
Lemma kelly_monotone_counterexample :
  0 < 0.5 /\ 0.5 < 1 /\ 0.9 <= 1
  /\ 0 < fullKelly 0.9 0.5 /\ 0 < fullKelly 1 0.5
  /\ kellyBetSize 1 0.5 default_kellyFraction default_maxFraction
     < kellyBetSize 0.9 0.5 default_kellyFraction default_maxFraction
  /\ (Binary64.kellyBetSize 1 0.5 0.25 0.10
      <? Binary64.kellyBetSize 0.9 0.5 0.25 0.10)%float = true.
Proof.
  split; [reflexivity |]. split; [reflexivity |].
  split; [vm_compute; discriminate |].
  repeat split; vm_compute; reflexivity.
Qed.

(** C4, as the code has it.  For a market price in (0,1) the stake
  fraction is non-decreasing in [probWin] over the positive-edge region
  below [probWin = 1] (at 1 and above it is 0); whatever the shrinkage
  factor, the fraction never exceeds the 0.10 ceiling; hence the dollar
  size is at most [0.10 * bankroll] for a non-negative bankroll. *)
Theorem kelly_monotone_and_capped :
(forall marketPrice p1 p2 : Q,
    0 < marketPrice -> marketPrice < 1 ->
    p2 < 1 -> p1 <= p2 ->
    0 < fullKelly p1 marketPrice ->
    kellyBetSize p1 marketPrice default_kellyFraction default_maxFraction
    <= kellyBetSize p2 marketPrice default_kellyFraction default_maxFraction)
/\ (forall probWin marketPrice kellyFraction : Q,
       kellyBetSize probWin marketPrice kellyFraction default_maxFraction <= 0.10)
/\ (forall bankroll probWin marketPrice : Q,
       0 <= bankroll ->
       calculateBetSize bankroll probWin marketPrice <= 0.10 * bankroll).
Proof.
split; [| split].
- intros m p1 p2 Hm0 Hm1 Hp2 Hle Hedge.
  assert (Hp1 : 0 < p1).
  { rewrite fullKelly_closed in Hedge by assumption.
    assert (Hd : 0 < 1 - m) by lra.
    assert (Hn : 0 < (p1 - m) / (1 - m) * (1 - m))
      by (apply Qmult_lt_0_compat; assumption).
    assert (E : (p1 - m) / (1 - m) * (1 - m) == p1 - m) by (field; lra).
    rewrite E in Hn. lra. }
  pose proof (fullKelly_mono p1 p2 m Hm0 Hm1 Hle) as Hmono.
  rewrite !kelly_regular by lra.
  destruct (Qle_bool (fullKelly p1 m) 0) eqn:E1;
    [apply Qle_bool_iff in E1; lra |].
  destruct (Qle_bool (fullKelly p2 m) 0) eqn:E2;
    [apply Qle_bool_iff in E2; lra |].
  apply Q.min_le_compat_r.
  apply Qmult_le_compat_r; [assumption | vm_compute; discriminate].
- intros p m kf. apply kelly_capped. vm_compute. discriminate.
- intros bankroll p m Hb. unfold calculateBetSize.
  assert (Hcap : kellyBetSize p m default_kellyFraction default_maxFraction
                 <= 0.10).
  { apply kelly_capped. vm_compute. discriminate. }
  nra.
Qed.

End KellySizing.

Lemma kelly_monotone_and_capped_witness :
  Utils.kellyBetSize 0.6 0.5 Utils.default_kellyFraction Utils.default_maxFraction
  <= Utils.kellyBetSize 0.7 0.5 Utils.default_kellyFraction Utils.default_maxFraction
  /\ Utils.calculateBetSize 1000 0.9 0.5 <= 0.10 * 1000.
Proof.
  destruct kelly_monotone_and_capped as [Hmono [_ Hcap]].
  split.
  - apply (Hmono 0.5 0.6 0.7); reflexivity || (vm_compute; discriminate).
  - apply (Hcap 1000 0.9 0.5). vm_compute. discriminate.
Defined.

Section Windows.
Import Utils.
Open Scope Z_scope.

(** The window start is the time floored to a multiple of 15 minutes. *)
Lemma get15MinWindowStart_floor (t : Z) :
  get15MinWindowStart t = 900000 * (t / 900000).
Proof.
  unfold get15MinWindowStart, setUTCMinutes, Day, getUTCHours, getUTCMinutes,
    msPerDay, msPerHour, msPerMinute.
  Z.to_euclidean_division_equations. lia.
Qed.

Lemma get15MinWindowStart_in_window (boundary t : Z) :
  boundary mod 900000 = 0 ->
  boundary <= t < boundary + 900000 ->
  get15MinWindowStart t = boundary.
Proof.
  intros Hb Ht. rewrite get15MinWindowStart_floor.
  Z.to_euclidean_division_equations. lia.
Qed.

Close Scope Z_scope.
End Windows.

(** ** Candle aggregation *)

Section Aggregation.
Import Model PriceFeed.

Lemma is_max_perm (m m' : Q) (xs xs' : list Q) :
  Permutation xs xs' -> is_max m xs -> is_max m' xs' -> m == m'.
Proof.
  intros P [Hall Hex] [Hall' Hex'].
  rewrite Forall_forall in Hall, Hall'. rewrite Exists_exists in Hex, Hex'.
  destruct Hex as [x [Hx Ex]], Hex' as [y [Hy Ey]].
  apply Qle_antisym.
  - rewrite <- Ex. apply Hall'. eapply Permutation_in; eassumption.
  - rewrite <- Ey. apply Hall.
    eapply Permutation_in; [apply Permutation_sym |]; eassumption.
Qed.

Lemma is_min_perm (m m' : Q) (xs xs' : list Q) :
  Permutation xs xs' -> is_min m xs -> is_min m' xs' -> m == m'.
Proof.
  intros P [Hall Hex] [Hall' Hex'].
  rewrite Forall_forall in Hall, Hall'. rewrite Exists_exists in Hex, Hex'.
  destruct Hex as [x [Hx Ex]], Hex' as [y [Hy Ey]].
  apply Qle_antisym.
  - rewrite <- Ey. apply Hall.
    eapply Permutation_in; [apply Permutation_sym |]; eassumption.
  - rewrite <- Ex. apply Hall'. eapply Permutation_in; eassumption.
Qed.

Lemma is_max_merge (m a b : Q) (l : list Q) :
  is_max m (Qmax a b :: l) -> is_max m (a :: b :: l).
Proof.
  intros [Hall Hex]. inversion Hall as [| ? ? Hab Hl]; subst. split.
  - pose proof (Q.le_max_l a b). pose proof (Q.le_max_r a b).
    repeat constructor; try assumption; lra.
  - inversion Hex as [? ? Hm | ? ? Hin]; subst.
    + destruct (Q.max_spec a b) as [[_ E] | [_ E]]; rewrite E in Hm.
      * apply Exists_cons_tl, Exists_cons_hd. assumption.
      * apply Exists_cons_hd. assumption.
    + do 2 apply Exists_cons_tl. assumption.
Qed.

Lemma is_min_merge (m a b : Q) (l : list Q) :
  is_min m (Qmin a b :: l) -> is_min m (a :: b :: l).
Proof.
  intros [Hall Hex]. inversion Hall as [| ? ? Hab Hl]; subst. split.
  - pose proof (Q.le_min_l a b). pose proof (Q.le_min_r a b).
    repeat constructor; try assumption; lra.
  - inversion Hex as [? ? Hm | ? ? Hin]; subst.
    + destruct (Q.min_spec a b) as [[_ E] | [_ E]]; rewrite E in Hm.
      * apply Exists_cons_hd. assumption.
      * apply Exists_cons_tl, Exists_cons_hd. assumption.
    + do 2 apply Exists_cons_tl. assumption.
Qed.

Lemma last_nonempty {A : Type} (l : list A) :
  forall a d d', last (a :: l) d = last (a :: l) d'.
Proof.
  induction l as [| b l IH]; intros a d d'; [reflexivity |].
  change (last (b :: l) d = last (b :: l) d'). apply IH.
Qed.

(** A tick of the open candle's window is merged into it. *)
Lemma aggregate_merge (st : State) (cur : Candle15m) (k : Kline) :
  currentCandle st = Some cur ->
  in_window (timestamp cur) k ->
  currentCandle (aggregate k st) =
  Some {| timestamp := timestamp cur; open := open cur;
          high := Qmax (high cur) (k_h k); low := Qmin (low cur) (k_l k);
          close := k_c k; volume := volume cur + k_v k |}.
Proof.
  intros Hc Hw. unfold aggregate, aggregateTo15Min. rewrite Hc.
  unfold in_window in Hw. rewrite Hw, Z.eqb_refl. reflexivity.
Qed.

(** Any other tick opens a candle of its own window. *)
Lemma aggregate_open (st : State) (k : Kline) :
  match currentCandle st with
  | Some cur => timestamp cur <> Utils.get15MinWindowStart (k_t k)
  | None => True
  end ->
  currentCandle (aggregate k st) =
  Some {| timestamp := Utils.get15MinWindowStart (k_t k); open := k_o k;
          high := k_h k; low := k_l k; close := k_c k; volume := k_v k |}.
Proof.
  intros H. unfold aggregate, aggregateTo15Min.
  destruct (currentCandle st) as [cur |]; [| reflexivity].
  apply Z.eqb_neq in H. rewrite H. cbn.
  destruct (timestamp cur =? 0)%Z; reflexivity.
Qed.

Lemma ingest_open_candle (ticks : list Kline) :
  forall (st : State) (cur : Candle15m),
    currentCandle st = Some cur ->
    Forall (in_window (timestamp cur)) ticks ->
    exists c,
      currentCandle (ingest ticks st) = Some c
      /\ timestamp c = timestamp cur
      /\ is_max (high c) (high cur :: map k_h ticks)
      /\ is_min (low c) (low cur :: map k_l ticks)
      /\ close c = last (map k_c ticks) (close cur).
Proof.
  induction ticks as [| k rest IH]; intros st cur Hc Hall.
  - exists cur. cbn.
    split; [assumption |]. split; [reflexivity |].
    split; [| split; [| reflexivity]].
    + split; [constructor; [apply Qle_refl | constructor] |].
      apply Exists_cons_hd. reflexivity.
    + split; [constructor; [apply Qle_refl | constructor] |].
      apply Exists_cons_hd. reflexivity.
  - inversion Hall as [| ? ? Hk Hrest]; subst.
    pose proof (aggregate_merge st cur k Hc Hk) as Hm.
    destruct (IH _ _ Hm Hrest) as [c [E [Ts [Hmax [Hmin Hcl]]]]].
    exists c. cbn [ingest fold_left] in *. cbn [timestamp high low close] in *.
    split; [exact E |]. split; [exact Ts |].
    split; [| split].
    + apply is_max_merge. exact Hmax.
    + apply is_min_merge. exact Hmin.
    + rewrite Hcl. cbn [map]. destruct (map k_c rest) as [| q l]; [reflexivity |].
      change (last (k_c k :: q :: l) (close cur)) with (last (q :: l) (close cur)).
      apply last_nonempty.
Qed.

Lemma last_map_close (l : list Kline) :
  forall d q, l <> [] -> last (map k_c l) q = k_c (last l d).
Proof.
  induction l as [| a l IHl]; intros d q Hne; [congruence |].
  destruct l as [| b l]; [reflexivity |].
  change (last (map k_c (b :: l)) q = k_c (last (b :: l) d)).
  apply IHl. discriminate.
Qed.

(** The first tick of a window that is not the open candle's. *)
Lemma ingest_fresh_window (W : Z) (k0 : Kline) (rest : list Kline) (st : State) :
  match currentCandle st with
  | Some cur => timestamp cur <> W
  | None => True
  end ->
  Forall (in_window W) (k0 :: rest) ->
  exists c,
    currentCandle (ingest (k0 :: rest) st) = Some c
    /\ timestamp c = W
    /\ is_max (high c) (map k_h (k0 :: rest))
    /\ is_min (low c) (map k_l (k0 :: rest))
    /\ forall d, close c = k_c (last (k0 :: rest) d).
Proof.
  intros Hother Hall.
  inversion Hall as [| ? ? Hk Hrest]; subst. unfold in_window in Hk.
  assert (Ho : currentCandle (aggregate k0 st) = Some
            {| timestamp := Utils.get15MinWindowStart (k_t k0);
               open := k_o k0; high := k_h k0; low := k_l k0;
               close := k_c k0; volume := k_v k0 |}).
  { apply aggregate_open. rewrite Hk. exact Hother. }
  destruct (ingest_open_candle rest _ _ Ho) as [c [E1 [E2 [E3 [E4 E5]]]]].
  { cbn [timestamp]. rewrite Hk. exact Hrest. }
  cbn [timestamp high low close] in *.
  exists c. split; [exact E1 |]. split; [congruence |].
  split; [exact E3 |]. split; [exact E4 |].
  intros d. rewrite E5.
  destruct rest as [| k1 rest']; [reflexivity |].
  rewrite (last_map_close (k1 :: rest') d) by discriminate. reflexivity.
Qed.

Lemma ingest_window (W : Z) (k0 : Kline) (rest : list Kline) (st : State) :
  Forall (in_window W) (k0 :: rest) ->
  exists c,
    currentCandle (ingest (k0 :: rest) st) = Some c
    /\ timestamp c = W
    /\ is_max (high c) (carried high W st ++ map k_h (k0 :: rest))
    /\ is_min (low c) (carried low W st ++ map k_l (k0 :: rest))
    /\ forall d, close c = k_c (last (k0 :: rest) d).
Proof.
  intros Hall. unfold carried.
  destruct (currentCandle st) as [cur |] eqn:Hc.
  - destruct (timestamp cur =? W)%Z eqn:E.
    + apply Z.eqb_eq in E. subst W.
      destruct (ingest_open_candle (k0 :: rest) st cur Hc Hall)
        as [c [E1 [E2 [E3 [E4 E5]]]]].
      exists c. repeat (split; [assumption |]).
      intros d. rewrite E5. apply last_map_close. discriminate.
    + apply Z.eqb_neq in E.
      apply ingest_fresh_window; [rewrite Hc; exact E | exact Hall].
  - apply ingest_fresh_window; [rewrite Hc; exact I | exact Hall].
Qed.

Lemma is_max_bounds (m : Q) (pre : list Q) (ticks : list Kline) :
  is_max m (pre ++ map k_h ticks) -> Forall (fun k => k_h k <= m) ticks.
Proof.
  intros [Hall _]. apply Forall_app in Hall. destruct Hall as [_ Hall].
  rewrite Forall_map in Hall. exact Hall.
Qed.

Lemma is_min_bounds (m : Q) (pre : list Q) (ticks : list Kline) :
  is_min m (pre ++ map k_l ticks) -> Forall (fun k => m <= k_l k) ticks.
Proof.
  intros [Hall _]. apply Forall_app in Hall. destruct Hall as [_ Hall].
  rewrite Forall_map in Hall. exact Hall.
Qed.

(** C7.  A tick stamped inside [[boundary, boundary + 15 min)) of a UTC
    quarter-hour boundary lands in the candle stamped [boundary]; for ticks
    of one window the candle's high is the maximum and its low the minimum
    of the ticks' highs and lows (together with those the open candle
    already carried for that window, if it did), whatever the order they
    are applied in, and its close is the close of the tick applied last. *)
Theorem aggregation_window_alignment_and_order :
  (forall (st : State) (boundary ts : Z) (o h l c v : Q),
      (boundary mod 900000 = 0)%Z ->
      (boundary <= ts < boundary + 900000)%Z ->
      exists cur,
        currentCandle (aggregateTo15Min ts o h l c v st) = Some cur
        /\ timestamp cur = boundary /\ close cur = c)
  /\ (forall (st : State) (W : Z) (ticks ticks' : list Kline),
         ticks <> [] ->
         Forall (in_window W) ticks ->
         Permutation ticks ticks' ->
         exists c c',
           currentCandle (ingest ticks st) = Some c
           /\ currentCandle (ingest ticks' st) = Some c'
           /\ timestamp c = W /\ timestamp c' = W
           /\ high c == high c' /\ low c == low c'
           /\ Forall (fun k => k_h k <= high c) ticks
           /\ Forall (fun k => low c <= k_l k) ticks
           /\ (forall d, close c = k_c (last ticks d))
           /\ (forall d, close c' = k_c (last ticks' d))
           /\ is_max (high c) (carried high W st ++ map k_h ticks)
           /\ is_min (low c) (carried low W st ++ map k_l ticks)
           /\ (match currentCandle st with
               | Some cur => timestamp cur <> W
               | None => True
               end ->
               is_max (high c) (map k_h ticks)
               /\ is_min (low c) (map k_l ticks))).
Proof.
  split.
  - intros st boundary ts o h l c v Hb Ht.
    unfold aggregateTo15Min.
    rewrite (get15MinWindowStart_in_window boundary ts Hb Ht).
    destruct (currentCandle st) as [cur |]; [| eexists; cbn; eauto].
    destruct (timestamp cur =? boundary)%Z eqn:E; cbn.
    + apply Z.eqb_eq in E. eexists. cbn. eauto.
    + destruct (timestamp cur =? 0)%Z; eexists; cbn; eauto.
  - intros st W ticks ticks' Hne Hall Hperm.
    assert (Hall' : Forall (in_window W) ticks').
    { rewrite Forall_forall in *. intros k Hk. apply Hall.
      eapply Permutation_in; [apply Permutation_sym |]; eassumption. }
    destruct ticks as [| k0 rest]; [congruence |].
    destruct ticks' as [| k0' rest'];
      [apply Permutation_sym, Permutation_nil in Hperm; discriminate |].
    destruct (ingest_window W k0 rest st Hall) as [c [E1 [E2 [E3 [E4 E5]]]]].
    destruct (ingest_window W k0' rest' st Hall') as [c' [F1 [F2 [F3 [F4 F5]]]]].
    exists c, c'.
    repeat (split; [assumption |]).
    split; [| split; [| split; [| split; [| split; [| split; [| split;
      [| split]]]]]]].
    + eapply is_max_perm; [| exact E3 | exact F3].
      apply Permutation_app_head, Permutation_map, Hperm.
    + eapply is_min_perm; [| exact E4 | exact F4].
      apply Permutation_app_head, Permutation_map, Hperm.
    + eapply is_max_bounds; exact E3.
    + eapply is_min_bounds; exact E4.
    + exact E5.
    + exact F5.
    + exact E3.
    + exact E4.
    + intros Hother. unfold carried in E3, E4.
      destruct (currentCandle st) as [cur |]; [| split; assumption].
      apply Z.eqb_neq in Hother. rewrite Hother in E3, E4.
      split; assumption.
Qed.

End Aggregation.


(** ** The decision cycle *)

Section DecisionCycle.
Import Bot.










End DecisionCycle.

(** ** Configuration and dry-run *)

Section Sizing.
Import Bot.

(** C10.  The sizing path never reads [MAX_KELLY_FRACTION]:
    [calculateBetSize] is the bankroll times [kellyBetSize] at the
    hard-coded shrinkage 0.25 and cap 0.10, and a cycle, hence a whole run,
    is the same under two configurations that differ only in that value. *)
Theorem sizing_ignores_MAX_KELLY_FRACTION :
  (forall bankroll probWin marketPrice : Q,
      Utils.calculateBetSize bankroll probWin marketPrice
      = bankroll * Utils.kellyBetSize probWin marketPrice 0.25 0.10)
  /\ (forall (cfg : Config.t) (v : Q) (env : CycleEnv) (feed : PriceFeed.State)
             (st : State) (ps : Polymarket.State),
         executeTrade (Config.with_MAX_KELLY_FRACTION v cfg) env feed st ps
         = executeTrade cfg env feed st ps)
  /\ (forall (cfg : Config.t) (v : Q)
             (cycles : list (CycleEnv * PriceFeed.State))
             (st : State) (ps : Polymarket.State),
         run (Config.with_MAX_KELLY_FRACTION v cfg) cycles st ps
         = run cfg cycles st ps).
Proof.
  assert (Hcycle : forall cfg v env feed st ps,
             executeTrade (Config.with_MAX_KELLY_FRACTION v cfg) env feed st ps
             = executeTrade cfg env feed st ps).
  { intros [] v env feed st ps. reflexivity. }
  split; [reflexivity |]. split; [exact Hcycle |].
  intros cfg v cycles.
  induction cycles as [| [env feed] rest IH]; intros st ps; [reflexivity |].
  cbn [run]. rewrite Hcycle, IH. reflexivity.
Qed.

End Sizing.

Section DryRun.
Import Polymarket.

Lemma is_empty_false (s : string) : s <> ""%string -> is_empty s = false.
Proof. intros H. apply String.eqb_neq. exact H. Qed.

Lemma dry_run_prefix (suffix : string) :
  String.prefix "dry-run-" ("dry-run-" ++ suffix) = true.
Proof. cbn. destruct suffix; reflexivity. Qed.

Lemma placeBet_dry_run (token : string) (quoted : Q) (env : PlaceEnv)
      (sizeUsd : Q) (st : State) :
  placeBet false token quoted env sizeUsd st
  = (Some {| orderID := "dry-run-" ++ decimal (dateNow env);
             status := "simulated" |},
     succeeded sizeUsd st, []).
Proof. reflexivity. Qed.

Lemma placeBet_filled (token : string) (quoted : Q) (env : PlaceEnv)
      (sizeUsd : Q) (st : State) (response : OrderResponse) :
  brokerReply env = Responded response ->
  is_filled response = true ->
  snd (fst (placeBet true token quoted env sizeUsd st)) = succeeded sizeUsd st.
Proof.
  intros Hr Hf. unfold placeBet. cbn [negb]. rewrite Hr, Hf. reflexivity.
Qed.

(** C9.  With [IS_PRODUCTION] false and the side's token id configured,
    [placeBetUp] and [placeBetDown] sign and post nothing, return the
    response ["simulated"] with an order id that starts with ["dry-run-"],
    and leave the statistics as an order the broker reports matched or live
    leaves them: one more successful order and the stake added to the
    total volume. *)
Theorem dry_run_places_no_order :
  forall (env : PlaceEnv) (sizeUsd : Q) (st : State),
    (BTC_UP_TOKEN_ID st <> ""%string ->
     exists r st',
       placeBetUp false env sizeUsd st = (Some r, st', [])
       /\ status r = "simulated"%string
       /\ String.prefix "dry-run-" (orderID r) = true
       /\ successfulOrders st' = S (successfulOrders st)
       /\ totalVolume st' = totalVolume st + sizeUsd
       /\ forall env' response,
           brokerReply env' = Responded response ->
           is_filled response = true ->
           snd (fst (placeBetUp true env' sizeUsd st)) = st')
    /\ (BTC_DOWN_TOKEN_ID st <> ""%string ->
        exists r st',
          placeBetDown false env sizeUsd st = (Some r, st', [])
          /\ status r = "simulated"%string
          /\ String.prefix "dry-run-" (orderID r) = true
          /\ successfulOrders st' = S (successfulOrders st)
          /\ totalVolume st' = totalVolume st + sizeUsd
          /\ forall env' response,
              brokerReply env' = Responded response ->
              is_filled response = true ->
              snd (fst (placeBetDown true env' sizeUsd st)) = st').
Proof.
  intros env sizeUsd st. split; intros Htoken; apply is_empty_false in Htoken.
  - unfold placeBetUp. rewrite Htoken.
    destruct (getMarketPrices (fetchedPrices env) (counted st)) as [up down].
    rewrite placeBet_dry_run. do 2 eexists.
    split; [reflexivity |]. split; [reflexivity |].
    split; [apply dry_run_prefix |].
    split; [reflexivity |]. split; [reflexivity |].
    intros env' response Hr Hf.
    destruct (getMarketPrices (fetchedPrices env') (counted st)) as [up' down'].
    apply (placeBet_filled _ _ _ _ _ _ Hr Hf).
  - unfold placeBetDown. rewrite Htoken.
    destruct (getMarketPrices (fetchedPrices env) (counted st)) as [up down].
    rewrite placeBet_dry_run. do 2 eexists.
    split; [reflexivity |]. split; [reflexivity |].
    split; [apply dry_run_prefix |].
    split; [reflexivity |]. split; [reflexivity |].
    intros env' response Hr Hf.
    destruct (getMarketPrices (fetchedPrices env') (counted st)) as [up' down'].
    apply (placeBet_filled _ _ _ _ _ _ Hr Hf).
Qed.

End DryRun.

(** ** The secondary price source *)

Section Chainlink.
Import PriceFeed.

(** A poll, successful or not, touches only the failure counter and the
    handle of the feed. *)
Lemma pollChainlink_preserves (reply : ChainlinkReply) (st : State) :
  let st' := pollChainlink reply st in
  latestPrice st' = latestPrice st
  /\ lastUpdateTime st' = lastUpdateTime st
  /\ candles15m st' = candles15m st
  /\ currentCandle st' = currentCandle st.
Proof.
  unfold pollChainlink, fetchChainlinkPrice.
  destruct (_ || _); [cbn; auto |].
  destruct reply; cbn; auto.
Qed.

(** C6, at the input where the code departs from it.  The stream has never
    delivered a tick; the Chainlink poll at [t0] succeeds and reads a price
    of 37000.  [fetchChainlinkPrice] returns that price, but neither
    [latestPrice] nor [lastUpdateTime] records it, and the feed is reported
    unhealthy one second later.  Likewise a feed seeded at [t0] and polled
    with success two minutes later is stale the second after the poll.  The
    candles are left alone. *)
Theorem chainlink_poll_does_not_feed_heartbeat :
  let st := PriceFeed.initial true in
  let reply := RoundData 3700000000000 8 in
  let st' := pollChainlink reply st in
  (exists price, fst (fetchChainlinkPrice reply st) = Some price /\ price == 37000)
  /\ latestPrice st' = 0
  /\ lastUpdateTime st' = 0%Z
  /\ isPriceFeedHealthy (Examples.t0 + 1000) st' = false
  /\ candles15m st' = candles15m st
  /\ currentCandle st' = currentCandle st
  /\ isPriceFeedHealthy (Examples.t0 + 121000)
                        (pollChainlink reply (Examples.feedAt Examples.t0))
     = false.
Proof.
  cbv zeta. split; [| repeat split].
  eexists. split; [reflexivity | vm_compute; reflexivity].
Qed.

End Chainlink.

(** ** The feature builder *)

Section FeatureShape.
Import Model.
Variable Math_sqrt Math_sin Math_cos : Q -> Q.
Variable Math_PI : Q.


Lemma computedFeatures_length (candles : list Candle15m) (last : Candle15m) :
  length (computedFeatures Math_sqrt Math_sin Math_cos Math_PI candles last) = 32%nat.
Proof.
  unfold computedFeatures. rewrite !length_app. reflexivity.
Qed.

Lemma at_last {A : Type} (l : list A) :
  l <> [] -> exists x, at_ l (len l - 1) = Some x.
Proof.
  intros Hne. unfold at_, len.
  destruct l as [| a l]; [congruence |].
  destruct (Z.ltb_spec (Z.of_nat (length (a :: l)) - 1) 0) as [H | H];
    [cbn [length] in H; lia |].
  destruct (nth_error (a :: l) (Z.to_nat (Z.of_nat (length (a :: l)) - 1)))
    eqn:E; [eauto |].
  apply nth_error_None in E. cbn [length] in *. lia.
Qed.

(** C8.  [prepareFeatures] throws, and throws the insufficient-history
    error, exactly when given fewer than 20 candles; with a manifest loaded
    and at least 20 candles it returns a vector of the manifest's
    [n_features] entries, and a manifest that disagrees with the 32
    computed features is reported by a warning while the vector is still
    returned. *)
Theorem prepareFeatures_precondition_and_shape :
  forall (metadata : option ModelMetadata) (candles : list Candle15m),
    ((exists e, prepareFeatures Math_sqrt Math_sin Math_cos Math_PI metadata candles = Throw e)
     <-> (length candles < 20)%nat)
    /\ ((length candles < 20)%nat ->
        prepareFeatures Math_sqrt Math_sin Math_cos Math_PI metadata candles = Throw (InsufficientHistory (length candles)))
    /\ ((20 <= length candles)%nat ->
        forall m, metadata = Some m ->
        exists features log,
          prepareFeatures Math_sqrt Math_sin Math_cos Math_PI metadata candles = Ok (features, log)
          /\ length features = n_features m
          /\ (n_features m <> 32%nat ->
              In (WarnCountMismatch 32 (n_features m)) log)
          /\ (n_features m = 32%nat -> log = [DebugPrepared 32])).
Proof.
  intros metadata candles.
  assert (Hshort : (length candles < 20)%nat ->
                   prepareFeatures Math_sqrt Math_sin Math_cos Math_PI metadata candles
                   = Throw (InsufficientHistory (length candles))).
  { intros H. unfold prepareFeatures.
    apply Nat.ltb_lt in H. rewrite H. reflexivity. }
  assert (Hlong : (20 <= length candles)%nat ->
                  exists last,
                    prepareFeatures Math_sqrt Math_sin Math_cos Math_PI metadata candles
                    = let features := computedFeatures Math_sqrt Math_sin Math_cos Math_PI candles last in
                      let expectedFeatures :=
                        match metadata with
                        | Some m => n_features m
                        | None => length features
                        end in
                      Ok (firstn expectedFeatures
                            (features ++ repeat (Finite 0)
                               (expectedFeatures - length features)),
                          (if (length features =? expectedFeatures)%nat then []
                           else [WarnCountMismatch (length features)
                                                   expectedFeatures])
                          ++ [DebugPrepared
                                (length (features ++ repeat (Finite 0)
                                   (expectedFeatures - length features)))])).
  { intros H. unfold prepareFeatures.
    destruct (length candles <? 20)%nat eqn:E; [apply Nat.ltb_lt in E; lia |].
    destruct (at_last candles) as [last Hlast];
      [destruct candles; [cbn in H; lia | discriminate] |].
    exists last. rewrite Hlast. reflexivity. }
  split; [| split].
  - split.
    + intros [e He].
      destruct (Nat.lt_ge_cases (length candles) 20) as [Hlt | Hge]; [exact Hlt |].
      destruct (Hlong Hge) as [last Hl]. rewrite Hl in He. discriminate He.
    + intros H. eexists. apply Hshort. exact H.
  - exact Hshort.
  - intros Hge m Hm. destruct (Hlong Hge) as [last Hl]. subst metadata.
    cbv zeta in Hl. rewrite computedFeatures_length in Hl.
    do 2 eexists. split; [exact Hl |]. split; [| split].
    + rewrite length_firstn, length_app, repeat_length, computedFeatures_length.
      lia.
    + intros Hne. apply Nat.eqb_neq in Hne. rewrite Nat.eqb_sym, Hne.
      left. reflexivity.
    + intros He. rewrite He. cbn [Nat.eqb Nat.sub app repeat].
      rewrite app_nil_r, computedFeatures_length. reflexivity.
Qed.

End FeatureShape.

Section FeatureDenominators.
Import Model.

Lemma eps_pos : 0 < eps.
Proof. reflexivity. Qed.

Lemma jsdiv_finite (n d : Q) : ~ d == 0 -> is_finite (jsdiv n d) = true.
Proof.
  intros H. unfold jsdiv.
  destruct (Qeq_bool d 0) eqn:E; [| reflexivity].
  apply Qeq_bool_iff in E. contradiction.
Qed.

Lemma jsdiv_by_positive (n d : Q) : 0 < d -> is_finite (jsdiv n d) = true.
Proof. intros H. apply jsdiv_finite. lra. Qed.

Lemma Qdiv_nonneg (a b : Q) : 0 <= a -> 0 <= b -> 0 <= a / b.
Proof.
  intros Ha Hb. unfold Qdiv.
  apply Qmult_le_0_compat; [assumption | apply Qinv_le_0_compat; assumption].
Qed.

Lemma Qdiv_pos (a b : Q) : 0 < a -> 0 < b -> 0 < a / b.
Proof.
  intros Ha Hb. apply Qlt_shift_div_l; [assumption | lra].
Qed.

Lemma fold_Qplus_ge (l : list Q) :
  forall a, Forall (fun x => 0 <= x) l -> a <= fold_left Qplus l a.
Proof.
  induction l as [| x l IH]; intros a H; [apply Qle_refl |].
  inversion H as [| ? ? Hx Hl]; subst. cbn [fold_left].
  specialize (IH (a + x) Hl). lra.
Qed.

Lemma fold_Qplus_gt (l : list Q) :
  forall a, l <> [] -> Forall (fun x => 0 < x) l -> a < fold_left Qplus l a.
Proof.
  destruct l as [| x l]; intros a Hne H; [congruence |].
  inversion H as [| ? ? Hx Hl]; subst. cbn [fold_left].
  assert (Hl' : Forall (fun x => 0 <= x) l).
  { eapply Forall_impl; [| exact Hl]. intros y Hy. cbv beta in *. lra. }
  pose proof (fold_Qplus_ge l (a + x) Hl'). lra.
Qed.

Lemma inject_len_pos {A : Type} (l : list A) : l <> [] -> 0 < inject_Z (len l).
Proof.
  intros H. unfold len. destruct l; [congruence |].
  change 0 with (inject_Z 0). rewrite <- Zlt_Qlt. cbn [length]. lia.
Qed.

Lemma inject_len_nonneg {A : Type} (l : list A) : 0 <= inject_Z (len l).
Proof.
  unfold len. change 0 with (inject_Z 0). rewrite <- Zle_Qle. lia.
Qed.

Lemma slice_last_Forall {A : Type} (P : A -> Prop) (period : nat) (l : list A) :
  Forall P l -> Forall P (slice_last period l).
Proof.
  intros H. unfold slice_last. destruct period; [exact H |].
  rewrite <- (firstn_skipn (length l - S period) l) in H.
  apply Forall_app in H. apply H.
Qed.

Lemma firstn_Forall {A : Type} (P : A -> Prop) (n : nat) (l : list A) :
  Forall P l -> Forall P (firstn n l).
Proof.
  intros H. rewrite <- (firstn_skipn n l) in H.
  apply Forall_app in H. apply H.
Qed.

Lemma slice_last_nonempty {A : Type} (period : nat) (l : list A) :
  l <> [] -> slice_last period l <> [].
Proof.
  intros H. unfold slice_last. destruct period; [exact H |].
  intros E. apply (f_equal (@length A)) in E.
  rewrite length_skipn in E. cbn [length] in E.
  destruct l; [congruence | cbn [length] in E; lia].
Qed.

Lemma sma_nonneg (values : list Q) (period : nat) :
  Forall (fun x => 0 <= x) values -> 0 <= sma values period.
Proof.
  intros H. unfold sma, sum. apply Qdiv_nonneg.
  - apply fold_Qplus_ge, slice_last_Forall, H.
  - apply inject_len_nonneg.
Qed.

Lemma sma_pos (values : list Q) (period : nat) :
  values <> [] -> Forall (fun x => 0 < x) values -> 0 < sma values period.
Proof.
  intros Hne H. unfold sma, sum. apply Qdiv_pos.
  - apply fold_Qplus_gt; [apply slice_last_nonempty, Hne |].
    apply slice_last_Forall, H.
  - apply inject_len_pos, slice_last_nonempty, Hne.
Qed.

Lemma ema_pos (values : list Q) (period : nat) :
  (1 <= period)%nat -> values <> [] -> Forall (fun x => 0 < x) values ->
  0 < ema values period.
Proof.
  intros Hp Hne H. unfold ema. destruct values as [| v0 rest]; [congruence |].
  inversion H as [| ? ? Hv0 Hrest]; subst.
  set (k := 2 / (inject_Z (Z.of_nat period) + 1)).
  assert (Hk : 0 < k /\ k <= 1).
  { assert (Hd : 2 <= inject_Z (Z.of_nat period) + 1).
    { assert (H1 : inject_Z 1 <= inject_Z (Z.of_nat period))
        by (rewrite <- Zle_Qle; lia).
      change (inject_Z 1) with 1 in H1. lra. }
    unfold k. split.
    - apply Qdiv_pos; lra.
    - apply Qle_shift_div_r; lra. }
  clear H Hne. revert v0 Hv0.
  induction rest as [| v rest IH]; intros r Hr; [exact Hr |].
  inversion Hrest as [| ? ? Hv Hrest']; subst. cbn [fold_left].
  apply IH; [exact Hrest' |]. nra.
Qed.

Lemma at_or_Forall (P : Q -> Prop) (l : list Q) (i : Z) (d : Q) :
  Forall P l -> P d -> P (at_or l i d).
Proof.
  intros Hl Hd. unfold at_or, at_.
  destruct (i <? 0)%Z; [exact Hd |].
  destruct (nth_error l (Z.to_nat i)) eqn:E; [| exact Hd].
  rewrite Forall_forall in Hl. apply Hl. eapply nth_error_In, E.
Qed.

Lemma at_In {A : Type} (l : list A) (i : Z) (x : A) : at_ l i = Some x -> In x l.
Proof.
  unfold at_. destruct (i <? 0)%Z; [discriminate |]. apply nth_error_In.
Qed.

End FeatureDenominators.

Section EpsilonPolicy.
Import Model.
Variable Math_sqrt Math_sin Math_cos : Q -> Q.
Variable Math_PI : Q.
Hypothesis sqrt_nonneg : forall x, 0 <= x -> 0 <= Math_sqrt x.


Lemma stdDev_nonneg (values : list Q) : 0 <= stdDev Math_sqrt values.
Proof.
  unfold stdDev. destruct values as [| v values]; [apply Qle_refl |].
  apply sqrt_nonneg, Qdiv_nonneg; [| apply inject_len_nonneg].
  unfold sum. apply fold_Qplus_ge. rewrite Forall_map, Forall_forall.
  intros x _. cbv beta.
  match goal with |- 0 <= ?d * ?d => set (diff := d) end. nra.
Qed.

Lemma closes_nonneg (candles : list Candle15m) :
  Forall sane candles -> Forall (fun x => 0 <= x) (map close candles).
Proof.
  intros H. rewrite Forall_map. eapply Forall_impl; [| exact H].
  intros c [_ [Hc _]]. exact Hc.
Qed.

Lemma volumes_nonneg (candles : list Candle15m) :
  Forall sane candles -> Forall (fun x => 0 <= x) (map volume candles).
Proof.
  intros H. rewrite Forall_map. eapply Forall_impl; [| exact H].
  intros c [_ [_ Hv]]. exact Hv.
Qed.

Lemma closes_pos (candles : list Candle15m) :
  Forall priced candles -> Forall (fun x => 0 < x) (map close candles).
Proof.
  intros H. rewrite Forall_map. eapply Forall_impl; [| exact H].
  intros c [_ [Hc _]]. exact Hc.
Qed.

Lemma priced_sane (candles : list Candle15m) :
  Forall priced candles -> Forall sane candles.
Proof.
  intros H. eapply Forall_impl; [| exact H].
  intros c [Hr [Hc Hv]]. repeat split; try assumption. lra.
Qed.

Lemma guarded_features_finite (candles : list Candle15m) (last : Candle15m) :
  Forall sane candles -> In last candles -> guarded Math_sqrt candles last.
Proof.
  intros Hall Hin. pose proof eps_pos as He.
  assert (Hlast : sane last) by (rewrite Forall_forall in Hall; auto).
  destruct Hlast as [Hr [Hc Hv]].
  pose proof (closes_nonneg candles Hall) as Hcs.
  pose proof (volumes_nonneg candles Hall) as Hvs.
  unfold guarded. cbv zeta. split; [| split; [| split; [| split]]].
  - unfold candleFeatures. cbv zeta.
    repeat constructor; apply jsdiv_by_positive; lra.
  - unfold bollingerFeatures. cbv zeta. do 2 eexists. split; [reflexivity |].
    apply jsdiv_by_positive.
    pose proof (stdDev_nonneg (slice_last 20 (map close candles))). lra.
  - unfold volumeFeatures. cbv zeta.
    repeat constructor; apply jsdiv_by_positive.
    + pose proof (sma_nonneg _ 8 Hvs). lra.
    + pose proof (at_or_Forall (fun x => 0 <= x) _
                    (len (map volume candles) - 2) (volume last) Hvs Hv).
      cbv beta in *. lra.
  - unfold momentumFeatures. cbv zeta.
    repeat constructor. apply jsdiv_by_positive.
    pose proof (at_or_Forall (fun x => 0 <= x) _
                  (len (map close candles) - 5) (close last) Hcs Hc).
    cbv beta in *. lra.
  - unfold zscoreFeatures. cbv zeta.
    repeat constructor. apply jsdiv_by_positive.
    pose proof (stdDev_nonneg (slice_last 8 (map close candles))). lra.
Qed.

Lemma computed_features_finite (candles : list Candle15m) (last : Candle15m) :
  Forall priced candles -> In last candles ->
  Forall finite (computedFeatures Math_sqrt Math_sin Math_cos Math_PI candles last).
Proof.
  intros Hall Hin.
  assert (Hne : map close candles <> []).
  { destruct candles; [contradiction | discriminate]. }
  assert (Hlast : priced last) by (rewrite Forall_forall in Hall; auto).
  destruct Hlast as [_ [Hc _]].
  pose proof (closes_pos candles Hall) as Hcs.
  destruct (guarded_features_finite candles last (priced_sane _ Hall) Hin)
    as [G1 [[pos [width [Ebb G2]]] [G3 [G4 G5]]]].
  unfold computedFeatures. cbv zeta. repeat (apply Forall_app; split).
  - unfold returnFeatures. rewrite Forall_map, Forall_forall.
    intros period _. apply jsdiv_by_positive.
    apply (at_or_Forall (fun x => 0 < x)); assumption.
  - exact G1.
  - repeat constructor.
  - repeat constructor.
  - rewrite Ebb. constructor; [exact G2 |]. constructor; [| constructor].
    unfold bollingerFeatures in Ebb. cbv zeta in Ebb.
    injection Ebb as _ <-. apply jsdiv_by_positive.
    apply sma_pos; assumption.
  - repeat constructor; apply jsdiv_by_positive; exact Hc.
  - exact G3.
  - exact G4.
  - unfold emaFeatures. cbv zeta.
    repeat constructor; apply jsdiv_by_positive; apply ema_pos;
      (lia || assumption).
  - exact G5.
  - repeat constructor.
Qed.

(** C5, as the code has it.  Of the ratio features, the candle-shape
    ratios, [bb_position], [volume_ratio], [volume_change], [roc_4] and
    [zscore_8] have [1e-10] added to the denominator and are finite for
    every history of candles with [high >= low], [close >= 0] and
    [volume >= 0], flat or zero prices included.  The returns, [bb_width],
    the volatility ratios and the close-to-EMA ratios divide by the previous
    close, the Bollinger middle, the last close and the EMA themselves; when
    every close of a history of at least 20 candles is positive, no feature
    of the vector is the result of a division by zero. *)
Theorem epsilon_guarded_denominators :
  forall (metadata : option ModelMetadata) (candles : list Candle15m),
    (20 <= length candles)%nat ->
    exists last,
      at_ candles (len candles - 1) = Some last
      /\ (Forall sane candles -> guarded Math_sqrt candles last)
      /\ (Forall priced candles ->
          exists features log,
            prepareFeatures Math_sqrt Math_sin Math_cos Math_PI metadata candles
            = Ok (features, log)
            /\ Forall finite features).
Proof.
  intros metadata candles Hlen.
  destruct (at_last candles) as [last Hlast];
    [destruct candles; [cbn in Hlen; lia | discriminate] |].
  exists last. split; [exact Hlast |].
  pose proof (at_In _ _ _ Hlast) as Hin. split.
  - intros Hall. apply guarded_features_finite; assumption.
  - intros Hall. unfold prepareFeatures.
    destruct (length candles <? 20)%nat eqn:E; [apply Nat.ltb_lt in E; lia |].
    rewrite Hlast. cbv zeta. do 2 eexists. split; [reflexivity |].
    apply firstn_Forall, Forall_app. split.
    + apply computed_features_finite; assumption.
    + apply Forall_forall. intros x Hx. apply repeat_spec in Hx. subst x.
      reflexivity.
Qed.

End EpsilonPolicy.


(** ** The properties on concrete inputs *)

Section Instances.
Import Examples Model.

Lemma sqrt_approx_nonneg (x : Q) : 0 <= x -> 0 <= sqrt_approx x.
Proof.
  intros _. unfold sqrt_approx. apply Qdiv_nonneg.
  - change 0 with (inject_Z 0). rewrite <- Zle_Qle. apply Z.sqrt_nonneg.
  - vm_compute. discriminate.
Qed.

Lemma rising20_priced : Forall priced rising20.
Proof.
  repeat constructor; vm_compute; (reflexivity || discriminate).
Qed.



(** The history whose next-to-last candle closed at zero: [return_1]
    divides by that close. *)
Lemma epsilon_counterexample :
  length withZeroClose = 20%nat
  /\ exists features log,
      Examples.features None withZeroClose = Ok (features, log)
      /\ nth_error features 0 = Some PosInfinity.
Proof.
  split; [reflexivity |].
  do 2 eexists. split; [vm_compute; reflexivity | reflexivity].
Qed.

Lemma epsilon_guarded_denominators_witness :
  (20 <= length rising20)%nat
  /\ exists last,
      guarded sqrt_approx rising20 last
      /\ exists features log,
          Examples.features (manifest 32) rising20 = Ok (features, log)
          /\ Forall finite features.
Proof.
  assert (Hlen : (20 <= length rising20)%nat) by (vm_compute; apply le_n).
  split; [exact Hlen |].
  destruct (epsilon_guarded_denominators
              sqrt_approx sin_approx cos_approx PI_approx sqrt_approx_nonneg
              (manifest 32) rising20 Hlen) as [last [_ [Hguarded Hfinite]]].
  exists last. split.
  - apply Hguarded, priced_sane, rising20_priced.
  - exact (Hfinite rising20_priced).
Defined.

Lemma aggregation_window_alignment_and_order_witness :
  (exists cur,
      PriceFeed.currentCandle
        (PriceFeed.aggregateTo15Min (t0 + 60000) 100 105 99 104 3
                                    (PriceFeed.initial true)) = Some cur
      /\ timestamp cur = t0 /\ close cur = 104)
  /\ exists c c',
      PriceFeed.currentCandle
        (PriceFeed.ingest [tickA; tickB] (PriceFeed.initial true)) = Some c
      /\ PriceFeed.currentCandle
           (PriceFeed.ingest [tickB; tickA] (PriceFeed.initial true)) = Some c'
      /\ high c == high c' /\ low c == low c'
      /\ close c = 101 /\ close c' = 104
      /\ is_max (high c) (map PriceFeed.k_h [tickA; tickB])
      /\ is_min (low c) (map PriceFeed.k_l [tickA; tickB]).
Proof.
  destruct aggregation_window_alignment_and_order as [Halign Horder].
  split.
  - apply (Halign (PriceFeed.initial true) t0 (t0 + 60000)%Z);
      [reflexivity | unfold t0; lia].
  - destruct (Horder (PriceFeed.initial true) t0 [tickA; tickB] [tickB; tickA])
      as [c [c' [E1 [E2 [_ [_ [Hh [Hl [_ [_ [Hc [Hc' [_ [_ Hfresh]]]]]]]]]]]]]].
    + discriminate.
    + repeat constructor.
    + apply perm_swap.
    + exists c, c'. repeat (split; [assumption |]).
      split; [exact (Hc tickA) |]. split; [exact (Hc' tickA) |].
      exact (Hfresh I).
Defined.

Lemma prepareFeatures_precondition_and_shape_witness :
  Examples.features (manifest 40) (firstn 19 rising20)
  = Throw (InsufficientHistory 19)
  /\ exists features log,
      Examples.features (manifest 40) rising20 = Ok (features, log)
      /\ length features = 40%nat
      /\ In (WarnCountMismatch 32 40) log.
Proof.
  split.
  - destruct (prepareFeatures_precondition_and_shape
                sqrt_approx sin_approx cos_approx PI_approx
                (manifest 40) (firstn 19 rising20)) as [_ [Hshort _]].
    apply Hshort. vm_compute. apply le_n.
  - destruct (prepareFeatures_precondition_and_shape
                sqrt_approx sin_approx cos_approx PI_approx
                (manifest 40) rising20) as [_ [_ Hlong]].
    destruct (Hlong (le_n 20) _ eq_refl) as [features [log [E [Hl [Hw _]]]]].
    exists features, log. split; [exact E |]. split; [exact Hl |].
    apply Hw. discriminate.
Defined.

Lemma dry_run_places_no_order_witness :
  let env := Bot.place (fst (inWindow 0 Polymarket.PostThrows)) in
  (exists r st',
      Polymarket.placeBetUp false env 50 market = (Some r, st', [])
      /\ Polymarket.status r = "simulated"%string
      /\ Polymarket.successfulOrders st' = 1%nat)
  /\ (exists r st',
         Polymarket.placeBetDown false env 50 market = (Some r, st', [])
         /\ Polymarket.status r = "simulated"%string
         /\ Polymarket.successfulOrders st' = 1%nat).
Proof.
  cbv zeta.
  destruct (dry_run_places_no_order
              (Bot.place (fst (inWindow 0 Polymarket.PostThrows))) 50 market)
    as [Hup Hdown].
  split.
  - destruct Hup as [r [st' [E [Hs [_ [Hn _]]]]]]; [discriminate |].
    exists r, st'. split; [exact E |]. split; [exact Hs | exact Hn].
  - destruct Hdown as [r [st' [E [Hs [_ [Hn _]]]]]]; [discriminate |].
    exists r, st'. split; [exact E |]. split; [exact Hs | exact Hn].
Defined.

End Instances.

(** * Further properties of the code *)

(** ** Windows and the scheduler *)

Section Scheduling.
Import Utils.
Open Scope Z_scope.

(** X1.  The window start is a multiple of 15 minutes, at most the time
    and less than 15 minutes before it; flooring twice changes nothing; the
    next window starts strictly later than the time, at most 15 minutes
    later. *)
Theorem window_brackets_time :
  forall t : Z,
    get15MinWindowStart t mod 900000 = 0
    /\ get15MinWindowStart t <= t < getNext15MinWindowStart t
    /\ getNext15MinWindowStart t = get15MinWindowStart t + 900000
    /\ get15MinWindowStart (get15MinWindowStart t) = get15MinWindowStart t
    /\ get15MinWindowStart (getNext15MinWindowStart t)
       = getNext15MinWindowStart t
    /\ 0 < msUntilNextWindow t <= 900000.
Proof.
  intros t. unfold msUntilNextWindow, getNext15MinWindowStart.
  rewrite !get15MinWindowStart_floor.
  repeat split; try (Z.to_euclidean_division_equations; lia).
Qed.

(** X2.  The firing band: [isOptimalBettingTime] holds exactly when the
    time is strictly between 840 s and 890 s into its window, that is
    strictly between 60 s and 10 s before the next boundary. *)
Theorem betting_band :
  forall now : Z,
    isOptimalBettingTime now = true
    <-> 840000 < now - get15MinWindowStart now < 890000.
Proof.
  intros now.
  unfold isOptimalBettingTime, msUntilNextWindow, getNext15MinWindowStart.
  rewrite andb_true_iff, !Z.ltb_lt. lia.
Qed.

Close Scope Z_scope.
End Scheduling.

Section Retry.
Import Utils.
Context {T E : Type}.

Lemma retry_loop_success (fn : nat -> T + E) (baseDelay : Z) (v : T) :
  forall i attempt remaining,
    (i <= remaining)%nat ->
    (forall j, (j < i)%nat -> exists e, fn (attempt + j)%nat = inr e) ->
    fn (attempt + i)%nat = inl v ->
    retry_loop fn baseDelay attempt remaining
    = (inl v, backoff baseDelay attempt i).
Proof.
  induction i as [| i IH]; intros attempt remaining Hle Hfail Hok.
  - rewrite Nat.add_0_r in Hok.
    destruct remaining; cbn [retry_loop]; rewrite Hok; reflexivity.
  - destruct remaining as [| remaining]; [lia |].
    destruct (Hfail 0%nat) as [e He]; [lia |].
    rewrite Nat.add_0_r in He. cbn [retry_loop]. rewrite He.
    rewrite (IH (S attempt) remaining).
    + reflexivity.
    + lia.
    + intros j Hj. destruct (Hfail (S j)) as [e' He']; [lia |].
      exists e'. rewrite <- He'. f_equal. lia.
    + rewrite <- Hok. f_equal. lia.
Qed.

Lemma retry_loop_failure (fn : nat -> T + E) (baseDelay : Z) (e : E) :
  forall remaining attempt,
    (forall j, (j < remaining)%nat -> exists e', fn (attempt + j)%nat = inr e') ->
    fn (attempt + remaining)%nat = inr e ->
    retry_loop fn baseDelay attempt remaining
    = (inr e, backoff baseDelay attempt remaining).
Proof.
  induction remaining as [| remaining IH]; intros attempt Hfail Hlast.
  - rewrite Nat.add_0_r in Hlast. cbn [retry_loop]. rewrite Hlast. reflexivity.
  - destruct (Hfail 0%nat) as [e0 He0]; [lia |].
    rewrite Nat.add_0_r in He0. cbn [retry_loop]. rewrite He0.
    rewrite (IH (S attempt)).
    + reflexivity.
    + intros j Hj. destruct (Hfail (S j)) as [e' He']; [lia |].
      exists e'. rewrite <- He'. f_equal. lia.
    + rewrite <- Hlast. f_equal. lia.
Qed.

Lemma retry_loop_sleeps (fn : nat -> T + E) (baseDelay : Z) :
  forall remaining attempt,
    (length (snd (retry_loop fn baseDelay attempt remaining)) <= remaining)%nat.
Proof.
  induction remaining as [| remaining IH]; intros attempt; cbn [retry_loop].
  - destruct (fn attempt); cbn; lia.
  - destruct (fn attempt); [cbn; lia |].
    specialize (IH (S attempt)).
    destruct (retry_loop fn baseDelay (S attempt) remaining) as [r slept].
    cbn in *. lia.
Qed.

(** X4.  [retry] calls the thunk at most [maxRetries + 1] times and sleeps
    at most [maxRetries] times.  If the attempt numbered [i <= maxRetries]
    is the first to resolve, its value is returned after the delays
    [baseDelay * 2^0 .. baseDelay * 2^(i-1)]; if the attempts
    [0 .. maxRetries] all reject, the error of the last one is thrown after
    the delays [baseDelay * 2^0 .. baseDelay * 2^(maxRetries-1)], with no
    sleep after the last attempt. *)
Theorem retry_backoff :
  forall (fn : nat -> T + E) (maxRetries : nat) (baseDelay : Z),
    (length (snd (retry fn maxRetries baseDelay)) <= maxRetries)%nat
    /\ (forall i v,
           (i <= maxRetries)%nat ->
           (forall j, (j < i)%nat -> exists e, fn j = inr e) ->
           fn i = inl v ->
           retry fn maxRetries baseDelay = (inl v, backoff baseDelay 0 i))
    /\ (forall e,
           (forall j, (j < maxRetries)%nat -> exists e', fn j = inr e') ->
           fn maxRetries = inr e ->
           retry fn maxRetries baseDelay
           = (inr e, backoff baseDelay 0 maxRetries)).
Proof.
  intros fn maxRetries baseDelay. unfold retry. split; [| split].
  - apply retry_loop_sleeps.
  - intros i v Hi Hfail Hok. apply retry_loop_success; assumption.
  - intros e Hfail Hlast. apply retry_loop_failure; assumption.
Qed.

End Retry.

Lemma retry_backoff_witness :
  Utils.retry (fun k => if (k <? 2)%nat then inr "busy"%string else inl k) 3 1000
  = (inl 2%nat, [1000; 2000]%Z)
  /\ Utils.retry (fun _ => @inr nat string "down"%string) 3 1000
     = (inr "down"%string, [1000; 2000; 4000]%Z).
Proof.
  split.
  - apply (proj1 (proj2 (retry_backoff
             (fun k => if (k <? 2)%nat then inr "busy"%string else inl k) 3 1000%Z))
             2%nat 2%nat).
    + repeat constructor.
    + intros j Hj. exists "busy"%string.
      destruct j as [| [| j]]; [reflexivity | reflexivity | lia].
    + reflexivity.
  - apply (proj2 (proj2 (retry_backoff
             (fun _ => @inr nat string "down"%string) 3 1000%Z))).
    + intros j _. exists "down"%string. reflexivity.
    + reflexivity.
Defined.

(** ** How a cycle ends *)

Section CycleOutcome.
Import Bot.



End CycleOutcome.

(** ** Order statistics and liquidity *)

Section OrderStatistics.
Import Polymarket.






End OrderStatistics.

Section LiquidityCheck.
Import Liquidity.

Lemma walk_monotone (asks : list (Q * Q)) (maxPrice : Q) :
  forall sizeUsd sizeUsd' totalSize totalValue,
    sizeUsd' <= sizeUsd ->
    Qle_bool sizeUsd (snd (walk asks maxPrice sizeUsd totalSize totalValue)) = true ->
    Qle_bool sizeUsd' (snd (walk asks maxPrice sizeUsd' totalSize totalValue)) = true.
Proof.
  induction asks as [| [price size] rest IH];
    intros s s' ts tv Hle H; cbn [walk] in *.
  - cbn [snd] in *. apply Qle_bool_iff in H. apply Qle_bool_iff. lra.
  - destruct (Qlt_bool maxPrice price).
    + cbn [snd] in *. apply Qle_bool_iff in H. apply Qle_bool_iff. lra.
    + destruct (Qle_bool s' (tv + price * size)) eqn:E'; [exact E' |].
      destruct (Qle_bool s (tv + price * size)) eqn:E.
      * cbn [snd] in H. apply Qle_bool_iff in E.
        apply Qle_bool_false in E'. lra.
      * eapply IH; eassumption.
Qed.

Lemma walk_takes_prefix (asks : list (Q * Q)) (maxPrice sizeUsd : Q) :
  forall totalSize totalValue,
    exists n,
      snd (walk asks maxPrice sizeUsd totalSize totalValue)
      = worth totalValue (firstn n asks)
      /\ Forall (fun ask => fst ask <= maxPrice) (firstn n asks).
Proof.
  induction asks as [| [price size] rest IH]; intros ts tv; cbn [walk].
  - exists 0%nat. split; [reflexivity | constructor].
  - destruct (Qlt_bool maxPrice price) eqn:E.
    + exists 0%nat. split; [reflexivity | constructor].
    + unfold Qlt_bool in E. apply negb_false_iff, Qle_bool_iff in E.
      destruct (Qle_bool sizeUsd (tv + price * size)).
      * exists 1%nat. split; [reflexivity |]. repeat constructor. exact E.
      * destruct (IH (ts + size) (tv + price * size)) as [n [Hv Hp]].
        exists (S n). split; [exact Hv |]. constructor; assumption.
Qed.

(** X12.  [checkLiquidity] reports insufficient when the book is missing
    or has no asks.  When it reports sufficient, a leading run of asks,
    each priced within the slippage tolerance of the best ask, is worth at
    least the stake; and a book sufficient for a stake is sufficient for
    every smaller one. *)
Theorem liquidity_check_sound :
  (forall sizeUsd maxSlippage,
      checkLiquidity None sizeUsd maxSlippage = false
      /\ checkLiquidity (Some []) sizeUsd maxSlippage = false)
  /\ (forall asks sizeUsd maxSlippage,
         checkLiquidity (Some asks) sizeUsd maxSlippage = true ->
         exists bestAskPrice n,
           option_map fst (hd_error asks) = Some bestAskPrice
           /\ Forall (fun ask => fst ask <= bestAskPrice * (1 + maxSlippage))
                     (firstn n asks)
           /\ sizeUsd <= worth 0 (firstn n asks))
  /\ (forall book sizeUsd sizeUsd' maxSlippage,
         sizeUsd' <= sizeUsd ->
         checkLiquidity book sizeUsd maxSlippage = true ->
         checkLiquidity book sizeUsd' maxSlippage = true).
Proof.
  split; [| split].
  - intros. split; reflexivity.
  - intros asks sizeUsd maxSlippage H. unfold checkLiquidity in H.
    destruct asks as [| [best bsize] rest]; [discriminate |].
    destruct (walk_takes_prefix ((best, bsize) :: rest)
                (best * (1 + maxSlippage)) sizeUsd 0 0) as [n [Hv Hp]].
    destruct (walk _ _ _ 0 0) as [ts tv]. cbn [snd] in Hv. subst tv.
    exists best, n. split; [reflexivity |]. split; [exact Hp |].
    apply Qle_bool_iff. exact H.
  - intros book sizeUsd sizeUsd' maxSlippage Hle H. unfold checkLiquidity in *.
    destruct book as [[| [best bsize] rest] |]; try discriminate.
    pose proof (walk_monotone ((best, bsize) :: rest) (best * (1 + maxSlippage))
                  sizeUsd sizeUsd' 0 0 Hle) as Hm.
    destruct (walk _ _ sizeUsd 0 0) as [ts tv].
    destruct (walk _ _ sizeUsd' 0 0) as [ts' tv'].
    cbn [snd] in Hm. auto.
Qed.

End LiquidityCheck.

(** ** Indicators *)

Section Indicators.
Import PrimFloat.
Import Model.

Lemma rsi_fold_nonneg (closes : list Q) (idx : list Z) :
  forall gains losses,
    0 <= gains -> 0 <= losses ->
    0 <= fst (fold_left (rsi_step closes) idx (gains, losses))
    /\ 0 <= snd (fold_left (rsi_step closes) idx (gains, losses)).
Proof.
  induction idx as [| i idx IH]; intros gains losses Hg Hl; [cbn; auto |].
  cbn [fold_left].
  assert (Hs : 0 <= fst (rsi_step closes (gains, losses) i)
               /\ 0 <= snd (rsi_step closes (gains, losses) i)).
  { unfold rsi_step. destruct (Qlt_bool 0 _) eqn:E; cbn [fst snd].
    - unfold Qlt_bool in E. apply negb_true_iff, Qle_bool_false in E.
      split; lra.
    - unfold Qlt_bool in E. apply negb_false_iff, Qle_bool_iff in E.
      split; lra. }
  destruct (rsi_step closes (gains, losses) i) as [g l].
  apply IH; apply Hs.
Qed.

(** X13.  [rsi] is 50 when fewer than [period + 1] closes are given, and
    always lies between 0 and 100. *)
Theorem rsi_range :
  forall (closes : list Q) (period : nat),
    ((length closes < period + 1)%nat -> rsi closes period = 50)
    /\ 0 <= rsi closes period <= 100.
Proof.
  intros closes period. unfold rsi.
  destruct (Nat.ltb_spec (length closes) (period + 1)) as [Hs | Hl].
  { split; [reflexivity | split; vm_compute; discriminate]. }
  split; [lia |].
  pose proof (rsi_fold_nonneg closes
                (map Z.of_nat (seq (length closes - period) period)) 0 0
                (Qle_refl 0) (Qle_refl 0)) as [Hg Hlo].
  destruct (fold_left _ _ _) as [gains losses]. cbn [fst snd] in *.
  destruct (Qeq_bool losses 0) eqn:E; [split; vm_compute; discriminate |].
  assert (Hpos : 0 < losses).
  { destruct (Qlt_le_dec 0 losses) as [H | H]; [exact H |].
    assert (Hz : losses == 0) by lra.
    apply Qeq_bool_iff in Hz. congruence. }
  assert (Hrs : 0 <= gains / losses) by (apply Qdiv_nonneg; lra).
  set (rs := gains / losses) in *.
  assert (Hq : 0 < 100 / (1 + rs)) by (apply Qdiv_pos; lra).
  assert (Hq' : 100 / (1 + rs) <= 100) by (apply Qle_shift_div_r; lra).
  lra.
Qed.

Lemma rsi_range_witness : rsi [1; 2; 3] 7 = 50.
Proof.
  apply (proj1 (rsi_range [1; 2; 3] 7)). vm_compute. repeat constructor.
Defined.

(** X14.  In exact arithmetic [ema] is 0 on no values and, for a period
    of at least 1, stays within any bounds that hold for all the values,
    so is the value itself on a constant series.  In the doubles the code
    computes with, rounding can carry it out of the bounds by a unit in
    the last place: on twenty values 1.3 at period 8 it is
    1.2999999999999998. *)
Theorem ema_within_bounds :
  forall (values : list Q) (period : nat) (lo hi : Q),
    ema [] period = 0
    /\ ((1 <= period)%nat -> values <> [] ->
        Forall (fun v => lo <= v <= hi) values ->
        lo <= ema values period <= hi)
    /\ (Binary64.ema (repeat 1.3%float 20) 8 = 1.2999999999999998%float
        /\ PrimFloat.ltb (Binary64.ema (repeat 1.3%float 20) 8) 1.3 = true).
Proof.
  intros values period lo hi. split; [reflexivity |].
  split; [| split; vm_compute; reflexivity].
  intros Hp Hne H. unfold ema. destruct values as [| v0 rest]; [congruence |].
  inversion H as [| ? ? Hv0 Hrest]; subst.
  set (k := 2 / (inject_Z (Z.of_nat period) + 1)).
  assert (Hk : 0 < k /\ k <= 1).
  { assert (Hd : 2 <= inject_Z (Z.of_nat period) + 1).
    { assert (H1 : inject_Z 1 <= inject_Z (Z.of_nat period))
        by (rewrite <- Zle_Qle; lia).
      change (inject_Z 1) with 1 in H1. lra. }
    unfold k. split.
    - apply Qdiv_pos; lra.
    - apply Qle_shift_div_r; lra. }
  clear H Hne. revert v0 Hv0.
  induction rest as [| v rest IH]; intros r Hr; [exact Hr |].
  inversion Hrest as [| ? ? Hv Hrest']; subst. cbn [fold_left].
  apply IH; [exact Hrest' |]. cbv beta in *. nra.
Qed.

Lemma ema_within_bounds_witness : 7 <= ema [7; 7; 7] 4 <= 7.
Proof.
  apply (proj1 (proj2 (ema_within_bounds [7; 7; 7] 4 7 7))).
  - repeat constructor.
  - discriminate.
  - repeat constructor; vm_compute; discriminate.
Defined.

Lemma fold_Qplus_bounds (l : list Q) (lo hi : Q) :
  forall a,
    Forall (fun v => lo <= v <= hi) l ->
    a + inject_Z (len l) * lo <= fold_left Qplus l a
    /\ fold_left Qplus l a <= a + inject_Z (len l) * hi.
Proof.
  induction l as [| x l IH]; intros a H.
  - unfold len. cbn [length Z.of_nat fold_left].
    change (inject_Z 0) with 0. split; lra.
  - inversion H as [| ? ? Hx Hl]; subst. cbn [fold_left].
    destruct (IH (a + x) Hl) as [I1 I2].
    assert (E : inject_Z (len (x :: l)) == inject_Z (len l) + 1).
    { unfold len. cbn [length]. rewrite Nat2Z.inj_succ. unfold Z.succ.
      rewrite inject_Z_plus. reflexivity. }
    rewrite E. cbv beta in Hx. split; nra.
Qed.

(** X15.  In exact arithmetic [sma] of a non-empty series lies within any
    bounds that hold for all its values, whatever the period, and [atr] of
    at least two candles is never negative.  In the doubles the code
    computes with, rounding can carry [sma] out of the bounds by a unit in
    the last place: [sma([0.1, 0.1, 0.1], 3)] is 0.10000000000000002. *)
Theorem sma_within_bounds :
  (forall (values : list Q) (period : nat) (lo hi : Q),
      values <> [] ->
      Forall (fun v => lo <= v <= hi) values ->
      lo <= sma values period <= hi)
  /\ (forall (candles : list Candle15m) (period : nat),
         (2 <= length candles)%nat -> 0 <= atr candles period)
  /\ (Binary64.sma [0.1; 0.1; 0.1]%float 3 = 0.10000000000000002%float
      /\ PrimFloat.ltb 0.1 (Binary64.sma [0.1; 0.1; 0.1]%float 3) = true).
Proof.
  split; [| split; [| split; vm_compute; reflexivity]].
  - intros values period lo hi Hne H. unfold sma, sum.
    pose proof (slice_last_nonempty period values Hne) as Hn.
    pose proof (slice_last_Forall _ period values H) as Hs.
    pose proof (inject_len_pos _ Hn) as Hpos.
    destruct (fold_Qplus_bounds _ lo hi 0 Hs) as [B1 B2].
    set (n := inject_Z (len (slice_last period values))) in *.
    split.
    + apply Qle_shift_div_l; [exact Hpos | lra].
    + apply Qle_shift_div_r; [exact Hpos | lra].
  - intros candles period _. unfold atr. apply sma_nonneg.
    induction candles as [| prev rest IH]; [constructor |].
    destruct rest as [| curr rest']; [constructor |].
    cbn [trueRanges]. constructor; [| exact IH].
    pose proof (Qabs_nonneg (low curr - close prev)) as Ha.
    pose proof (Q.le_max_r (Qmax (high curr - low curr)
                                 (Qabs (high curr - close prev)))
                           (Qabs (low curr - close prev))). lra.
Qed.

Lemma sma_within_bounds_witness :
  1 <= sma [1; 2; 3] 2 <= 3 /\ 0 <= atr Examples.rising20 7.
Proof.
  split.
  - apply (proj1 sma_within_bounds [1; 2; 3] 2%nat 1 3).
    + discriminate.
    + repeat constructor; vm_compute; discriminate.
  - apply (proj1 (proj2 sma_within_bounds) Examples.rising20 7%nat).
    vm_compute. repeat constructor.
Defined.

End Indicators.

Section FeatureVector.
Import Model.
Variable Math_sqrt Math_sin Math_cos : Q -> Q.
Variable Math_PI : Q.

(** X16.  What the vector holds.  Without a manifest the 32 computed
    features are returned as they are and nothing is warned.  With a
    manifest of [n] features the vector is the first [n] computed features
    followed by [n - 32] zeros: a short manifest cuts the tail of the
    feature list, a long one pads it at the end. *)
Theorem feature_vector_contents :
  forall (metadata : option ModelMetadata) (candles : list Candle15m),
    (20 <= length candles)%nat ->
    exists last,
      at_ candles (len candles - 1) = Some last
      /\ let computed :=
           computedFeatures Math_sqrt Math_sin Math_cos Math_PI candles last in
         (metadata = None ->
          prepareFeatures Math_sqrt Math_sin Math_cos Math_PI metadata candles
          = Ok (computed, [DebugPrepared 32]))
         /\ (forall m, metadata = Some m ->
             exists log,
               prepareFeatures Math_sqrt Math_sin Math_cos Math_PI metadata candles
               = Ok (firstn (n_features m) computed
                     ++ repeat (Finite 0) (n_features m - 32),
                     log)).
Proof.
  intros metadata candles Hlen.
  destruct (at_last candles) as [last Hlast];
    [destruct candles; [cbn in Hlen; lia | discriminate] |].
  exists last. split; [exact Hlast |]. cbv zeta.
  pose proof (computedFeatures_length Math_sqrt Math_sin Math_cos Math_PI
                candles last) as H32.
  unfold prepareFeatures.
  destruct (length candles <? 20)%nat eqn:E; [apply Nat.ltb_lt in E; lia |].
  rewrite Hlast. cbv zeta. split.
  - intros ->. rewrite Nat.eqb_refl, Nat.sub_diag. cbn [repeat app].
    rewrite app_nil_r, firstn_all, H32. reflexivity.
  - intros m ->. eexists. f_equal. f_equal.
    rewrite firstn_app, H32.
    f_equal. apply firstn_all2. rewrite repeat_length. lia.
Qed.

End FeatureVector.

Lemma feature_vector_contents_witness :
  exists last log,
    Examples.features (Examples.manifest 34) Examples.rising20
    = Model.Ok
        (firstn 34 (Model.computedFeatures
                      Examples.sqrt_approx Examples.sin_approx
                      Examples.cos_approx Examples.PI_approx
                      Examples.rising20 last)
         ++ [Finite 0; Finite 0],
         log).
Proof.
  destruct (feature_vector_contents
              Examples.sqrt_approx Examples.sin_approx Examples.cos_approx
              Examples.PI_approx (Examples.manifest 34) Examples.rising20)
    as [last [_ [_ H]]]; [vm_compute; repeat constructor |].
  destruct (H _ eq_refl) as [log E].
  exists last, log. exact E.
Defined.

(** ** The Chainlink poll *)

Section ChainlinkBreaker.
Import PriceFeed.

Lemma three_in_a_row_snoc (l : list ChainlinkReply) (r : ChainlinkReply) :
  three_in_a_row (l ++ [r])
  <-> three_in_a_row l
      \/ (r = ChainlinkError /\ ends_with [ChainlinkError; ChainlinkError] l).
Proof.
  split.
  - intros [pre [post E]].
    destruct post as [| y post0] using rev_ind;
      [| clear IHpost0; rename post0 into post', y into x].
    + right. rewrite app_nil_r in E.
      change [ChainlinkError; ChainlinkError; ChainlinkError]
        with ([ChainlinkError; ChainlinkError] ++ [ChainlinkError]) in E.
      rewrite app_assoc in E. apply app_inj_tail in E. destruct E as [E1 E2].
      split; [exact E2 | exists pre; exact E1].
    + left. exists pre, post'.
      rewrite !app_assoc in E. apply app_inj_tail in E. destruct E as [E1 _].
      rewrite E1, <- !app_assoc. reflexivity.
  - intros [[pre [post E]] | [-> [pre E]]].
    + exists pre, (post ++ [r]). rewrite E, <- !app_assoc. reflexivity.
    + exists pre, []. rewrite E, <- !app_assoc. reflexivity.
Qed.

Lemma ends_two_one (l : list ChainlinkReply) :
  ends_with [ChainlinkError; ChainlinkError] l -> ends_with [ChainlinkError] l.
Proof.
  intros [pre E]. exists (pre ++ [ChainlinkError]).
  rewrite E, <- app_assoc. reflexivity.
Qed.

Lemma ends_snoc (l suffix : list ChainlinkReply) (r x : ChainlinkReply) :
  ends_with (suffix ++ [x]) (l ++ [r]) -> r = x /\ ends_with suffix l.
Proof.
  intros [pre E]. rewrite app_assoc in E. apply app_inj_tail in E.
  destruct E as [E1 E2]. split; [exact E2 | exists pre; exact E1].
Qed.

Lemma tracks_step (l : list ChainlinkReply) (r : ChainlinkReply) (st : State) :
  tracks l st -> tracks (l ++ [r]) (pollChainlink r st).
Proof.
  unfold tracks, pollChainlink, fetchChainlinkPrice.
  intros [[Hon [Hno Hc]] | [Hoff H3]].
  - rewrite Hon. cbn [negb orb].
    assert (Hlt : (chainlinkFailureCount st < 3)%nat)
      by (destruct Hc as [[-> _] | [[-> _] | [-> _]]]; lia).
    destruct (Nat.leb_spec MAX_CHAINLINK_FAILURES (chainlinkFailureCount st))
      as [Hge | _]; [unfold MAX_CHAINLINK_FAILURES in Hge; lia |].
    destruct r as [answer decimals |]; cbn.
    + left. split; [first [exact Hon | reflexivity] |]. split.
      * rewrite three_in_a_row_snoc. intros [H | [H _]];
          [contradiction | discriminate].
      * left. split; [reflexivity |].
        intros H. apply (ends_snoc _ [] _ ChainlinkError) in H.
        destruct H as [H _]. discriminate.
    + destruct Hc as [[Hz Hne] | [[Hone [He Hne]] | [Htwo He]]].
      * rewrite Hz. cbn. left. split; [first [exact Hon | reflexivity] |]. split.
        -- rewrite three_in_a_row_snoc. intros [H | [_ H]]; [contradiction |].
           apply Hne, ends_two_one, H.
        -- right. left. split; [reflexivity |]. split.
           ++ exists l. reflexivity.
           ++ intros H.
              apply (ends_snoc _ [ChainlinkError] _ ChainlinkError) in H.
              apply Hne, H.
      * rewrite Hone. cbn. left. split; [first [exact Hon | reflexivity] |]. split.
        -- rewrite three_in_a_row_snoc. intros [H | [_ H]]; contradiction.
        -- right. right. split; [reflexivity |].
           destruct He as [pre E]. exists pre. rewrite E, <- app_assoc.
           reflexivity.
      * rewrite Htwo. cbn. right. split; [reflexivity |].
        rewrite three_in_a_row_snoc. right. split; [reflexivity | exact He].
  - rewrite Hoff. cbn. right. split; [exact Hoff |].
    rewrite three_in_a_row_snoc. left. exact H3.
Qed.

Lemma pollAll_snoc (l : list ChainlinkReply) (r : ChainlinkReply) (st : State) :
  pollAll (l ++ [r]) st = pollChainlink r (pollAll l st).
Proof. unfold pollAll. rewrite fold_left_app. reflexivity. Qed.

Lemma tracks_pollAll (replies : list ChainlinkReply) :
  tracks replies (pollAll replies (PriceFeed.initial true)).
Proof.
  induction replies as [| r l IH] using rev_ind.
  - left. split; [reflexivity |]. split.
    + intros [pre [post E]]. destruct pre; discriminate E.
    + left. split; [reflexivity |]. intros [pre E]. destruct pre; discriminate E.
  - rewrite pollAll_snoc. apply tracks_step, IH.
Qed.

(** X18.  The Chainlink source is given up after three failed polls in a
    row, and only then: starting with the feed initialised, the handle is
    dropped exactly when the replies so far contain three consecutive
    failures (a success in between starts the count again); once it is
    dropped every further poll returns no price and changes nothing. *)
Theorem chainlink_disabled_after_three_in_a_row :
  (forall replies,
      chainlinkFeed (pollAll replies (PriceFeed.initial true)) = false
      <-> three_in_a_row replies)
  /\ (forall st replies,
         chainlinkFeed st = false -> pollAll replies st = st)
  /\ (forall st reply,
         chainlinkFeed st = false -> fst (fetchChainlinkPrice reply st) = None).
Proof.
  split; [| split].
  - intros replies.
    destruct (tracks_pollAll replies) as [[Hon [Hno _]] | [Hoff H3]].
    + rewrite Hon. split; [discriminate | contradiction].
    + rewrite Hoff. split; auto.
  - intros st replies Hoff. unfold pollAll.
    induction replies as [| r l IH]; [reflexivity |].
    cbn [fold_left]. unfold pollChainlink at 2, fetchChainlinkPrice.
    rewrite Hoff. cbn. exact IH.
  - intros st reply Hoff. unfold fetchChainlinkPrice. rewrite Hoff. reflexivity.
Qed.

End ChainlinkBreaker.

(** ** The candle history *)

Section History.
Import Model PriceFeed.

Lemma pushCandle_length (c : Candle15m) (history : list Candle15m) :
  (length (pushCandle c history) <= Nat.max 100 (length history))%nat.
Proof.
  unfold pushCandle. rewrite length_app. cbn [length].
  destruct (Nat.ltb_spec 100 (length history + 1)) as [H | H].
  - destruct history as [| h history]; cbn [app tl length] in *; [lia |].
    rewrite length_app. cbn [length]. lia.
  - rewrite length_app. cbn [length]. lia.
Qed.

Lemma aggregate_history (k : Kline) (st : State) :
  candles15m (aggregate k st)
  = match currentCandle st with
    | Some cur =>
        if (timestamp cur =? Utils.get15MinWindowStart (k_t k))%Z
        then candles15m st
        else if (timestamp cur =? 0)%Z then candles15m st
             else pushCandle cur (candles15m st)
    | None => candles15m st
    end.
Proof.
  unfold aggregate, aggregateTo15Min.
  destruct (currentCandle st) as [cur |]; [| reflexivity].
  destruct (timestamp cur =? Utils.get15MinWindowStart (k_t k))%Z;
    [reflexivity |].
  cbn [negb]. destruct (timestamp cur =? 0)%Z; reflexivity.
Qed.

(** X19.  The history is a bounded queue of closed candles.  A tick never
    makes it longer than 100, or than it already was; the only change a
    tick can make is to append the open candle when the tick belongs to
    another window, dropping the oldest entry when 100 are held; a tick of
    the open candle's window leaves the history as it is, and an open
    candle stamped 0 is discarded, not appended. *)
Theorem history_is_a_bounded_queue :
  (forall k st,
      (length (candles15m (aggregate k st))
       <= Nat.max 100 (length (candles15m st)))%nat)
  /\ (forall ticks st,
         (length (candles15m st) <= 100)%nat ->
         (length (candles15m (ingest ticks st)) <= 100)%nat)
  /\ (forall k st cur,
         currentCandle st = Some cur ->
         timestamp cur <> Utils.get15MinWindowStart (k_t k) ->
         timestamp cur <> 0%Z ->
         ((length (candles15m st) < 100)%nat ->
          candles15m (aggregate k st) = candles15m st ++ [cur])
         /\ (length (candles15m st) = 100%nat ->
             candles15m (aggregate k st) = tl (candles15m st) ++ [cur]))
  /\ (forall k st cur,
         currentCandle st = Some cur ->
         timestamp cur = Utils.get15MinWindowStart (k_t k)
         \/ timestamp cur = 0%Z ->
         candles15m (aggregate k st) = candles15m st).
Proof.
  assert (Hstep : forall k st,
             (length (candles15m (aggregate k st))
              <= Nat.max 100 (length (candles15m st)))%nat).
  { intros k st. rewrite aggregate_history.
    destruct (currentCandle st) as [cur |]; [| lia].
    destruct (_ =? _)%Z; [lia |]. destruct (_ =? 0)%Z; [lia |].
    apply pushCandle_length. }
  split; [exact Hstep |]. split; [| split].
  - intros ticks. unfold ingest.
    induction ticks as [| k rest IH]; intros st H; [exact H |].
    cbn [fold_left]. apply IH. specialize (Hstep k st). lia.
  - intros k st cur Hc Hw Hz. rewrite aggregate_history, Hc.
    apply Z.eqb_neq in Hw, Hz. rewrite Hw, Hz. unfold pushCandle.
    rewrite length_app. cbn [length]. split; intros Hl.
    + destruct (Nat.ltb_spec 100 (length (candles15m st) + 1)); [lia |].
      reflexivity.
    + destruct (Nat.ltb_spec 100 (length (candles15m st) + 1)); [| lia].
      destruct (candles15m st); [discriminate Hl | reflexivity].
  - intros k st cur Hc H. rewrite aggregate_history, Hc.
    destruct H as [H | H]; apply Z.eqb_eq in H.
    + rewrite H. reflexivity.
    + destruct (timestamp cur =? Utils.get15MinWindowStart (k_t k))%Z;
        [reflexivity |].
      rewrite H. reflexivity.
Qed.

Lemma sum_from (l : list Q) : forall a, fold_left Qplus l a == a + sum l.
Proof.
  unfold sum. induction l as [| x l IH]; intros a; cbn [fold_left]; [lra |].
  rewrite (IH (a + x)), (IH (0 + x)). lra.
Qed.

Lemma ingest_open_volume (ticks : list Kline) :
  forall (st : State) (cur : Candle15m),
    currentCandle st = Some cur ->
    Forall (in_window (timestamp cur)) ticks ->
    exists c,
      currentCandle (ingest ticks st) = Some c
      /\ open c = open cur
      /\ volume c == volume cur + sum (map k_v ticks)
      /\ candles15m (ingest ticks st) = candles15m st.
Proof.
  induction ticks as [| k rest IH]; intros st cur Hc Hall.
  - exists cur. cbn. repeat split; try assumption. unfold sum. cbn. lra.
  - inversion Hall as [| ? ? Hk Hrest]; subst.
    pose proof (aggregate_merge st cur k Hc Hk) as Hm.
    destruct (IH _ _ Hm Hrest) as [c [E [Ho [Hv Hh]]]].
    change (ingest (k :: rest) st) with (ingest rest (aggregate k st)).
    cbn [open volume] in *.
    exists c. split; [exact E |]. split; [exact Ho |]. split.
    + rewrite Hv. cbn [map]. unfold sum at 2. cbn [fold_left].
      rewrite (sum_from (map k_v rest) (0 + k_v k)). lra.
    + rewrite Hh, aggregate_history, Hc.
      unfold in_window in Hk. rewrite Hk, Z.eqb_refl. reflexivity.
Qed.

(** X20.  The ticks of a window that is not yet open, applied in any
    order, give a candle whose open is the open of the first tick applied
    and whose volume is the sum of the ticks' volumes. *)
Theorem window_open_and_volume :
  forall (W : Z) (k0 : Kline) (rest : list Kline) (st : State),
    match currentCandle st with
    | Some cur => timestamp cur <> W
    | None => True
    end ->
    Forall (in_window W) (k0 :: rest) ->
    exists c,
      currentCandle (ingest (k0 :: rest) st) = Some c
      /\ timestamp c = W
      /\ open c = k_o k0
      /\ volume c == sum (map k_v (k0 :: rest)).
Proof.
  intros W k0 rest st Hother Hall.
  inversion Hall as [| ? ? Hk Hrest]; subst. unfold in_window in Hk.
  assert (Ho : currentCandle (aggregate k0 st) = Some
            {| timestamp := Utils.get15MinWindowStart (k_t k0);
               open := k_o k0; high := k_h k0; low := k_l k0;
               close := k_c k0; volume := k_v k0 |}).
  { apply aggregate_open. rewrite Hk. exact Hother. }
  destruct (ingest_open_candle rest _ _ Ho) as [c [E1 [E2 _]]].
  { cbn [timestamp]. rewrite Hk. exact Hrest. }
  destruct (ingest_open_volume rest _ _ Ho) as [c' [F1 [F2 [F3 _]]]].
  { cbn [timestamp]. rewrite Hk. exact Hrest. }
  rewrite E1 in F1. injection F1 as <-.
  cbn [timestamp open volume] in *.
  exists c. split; [exact E1 |]. split; [congruence |]. split; [exact F2 |].
  rewrite F3. cbn [map]. unfold sum at 2. cbn [fold_left].
  rewrite (sum_from (map k_v rest) (0 + k_v k0)). lra.
Qed.

End History.

(** ** Orders sent to the broker *)

Section ProductionOrders.
Import Polymarket.

Lemma placeBet_sends (token : string) (quoted sizeUsd : Q) (env : PlaceEnv)
      (st : State) :
  sends token quoted sizeUsd env st
        (placeBet true token quoted env sizeUsd (counted st)).
Proof.
  unfold sends, placeBet. cbn [negb].
  set (order := {| tokenID := token; price := Qmin (quoted * 1.005) 0.99;
                   size := jsdiv sizeUsd (Qmin (quoted * 1.005) 0.99);
                   side := "BUY" |}).
  assert (Hshares : 0 < quoted ->
            exists shares,
              size order = Finite shares /\ shares == sizeUsd / price order).
  { intros Hq. cbn [size price order].
    assert (Hp : 0 < Qmin (quoted * 1.005) 0.99).
    { apply Q.min_glb_lt; [nra | reflexivity]. }
    unfold jsdiv.
    destruct (Qeq_bool (Qmin (quoted * 1.005) 0.99) 0) eqn:E;
      [apply Qeq_bool_iff in E; lra |].
    eexists. split; reflexivity. }
  destruct (brokerReply env) as [| | r] eqn:Hr; exists order;
    (split; [reflexivity |]); (split; [reflexivity |]);
    (split; [reflexivity |]); (split; [reflexivity |]);
    (split; [exact Hshares |]).
  - split; [left; reflexivity |]. split; [split; reflexivity |].
    split; [reflexivity |]. split; [intros r; split; discriminate |].
    intros _. cbn. auto.
  - split; [right; reflexivity |]. split; [split; discriminate |].
    split; [reflexivity |]. split; [intros r; split; discriminate |].
    intros _. cbn. auto.
  - split; [right; reflexivity |]. split; [split; discriminate |].
    split; [destruct (is_filled r); reflexivity |].
    split; [intros r'; split; congruence | discriminate].
Qed.

(** X21.  A production order.  With the side's token id set,
    [placeBetUp] and [placeBetDown] count one order, sign exactly one BUY
    order for that token at [min(quote * 1.005, 0.99)], for a size that is
    the stake divided by that price (a finite number of shares when the
    quote is positive), and post that same order unless signing threw.
    They return the broker's response when there is one, and otherwise
    count a failed order and return nothing. *)
Theorem production_order_is_signed_then_posted :
  forall (env : PlaceEnv) (sizeUsd : Q) (st : State),
    (BTC_UP_TOKEN_ID st <> ""%string ->
     sends (BTC_UP_TOKEN_ID st)
           (fst (getMarketPrices (fetchedPrices env) st)) sizeUsd env st
           (placeBetUp true env sizeUsd st))
    /\ (BTC_DOWN_TOKEN_ID st <> ""%string ->
        sends (BTC_DOWN_TOKEN_ID st)
              (snd (getMarketPrices (fetchedPrices env) st)) sizeUsd env st
              (placeBetDown true env sizeUsd st)).
Proof.
  intros env sizeUsd st. split; intros Htoken; apply is_empty_false in Htoken.
  - unfold placeBetUp. rewrite Htoken.
    change (getMarketPrices (fetchedPrices env) (counted st))
      with (getMarketPrices (fetchedPrices env) st).
    destruct (getMarketPrices (fetchedPrices env) st) as [up down].
    apply placeBet_sends.
  - unfold placeBetDown. rewrite Htoken.
    change (getMarketPrices (fetchedPrices env) (counted st))
      with (getMarketPrices (fetchedPrices env) st).
    destruct (getMarketPrices (fetchedPrices env) st) as [up down].
    apply placeBet_sends.
Qed.

End ProductionOrders.

(** ** The further properties on concrete inputs *)

Section FurtherInstances.
Import Examples.



Lemma liquidity_check_sound_witness :
  Liquidity.checkLiquidity (Some [(0.50, 1000)]) 20 0.01 = true
  /\ exists bestAskPrice n,
      option_map fst (hd_error [(0.50, 1000)]) = Some bestAskPrice
      /\ Forall (fun ask => fst ask <= bestAskPrice * (1 + 0.01))
                (firstn n [(0.50, 1000)])
      /\ 50 <= worth 0 (firstn n [(0.50, 1000)]).
Proof.
  destruct liquidity_check_sound as [_ [Hvalue Hmono]].
  split.
  - apply (Hmono (Some [(0.50, 1000)]) 50 20 0.01);
      [vm_compute; discriminate | reflexivity].
  - apply (Hvalue [(0.50, 1000)] 50 0.01). reflexivity.
Defined.

Lemma chainlink_disabled_after_three_in_a_row_witness :
  let replies := [PriceFeed.ChainlinkError; PriceFeed.ChainlinkError;
                  PriceFeed.ChainlinkError] in
  let off := PriceFeed.pollAll replies (PriceFeed.initial true) in
  PriceFeed.pollAll [PriceFeed.RoundData 3700000000000 8] off = off
  /\ fst (PriceFeed.fetchChainlinkPrice (PriceFeed.RoundData 3700000000000 8) off)
     = None.
Proof.
  cbv zeta.
  destruct chainlink_disabled_after_three_in_a_row as [_ [Hkeep Hnone]].
  split.
  - apply Hkeep. reflexivity.
  - apply Hnone. reflexivity.
Defined.

Lemma history_is_a_bounded_queue_witness :
  let next : PriceFeed.Kline :=
    {| PriceFeed.k_t := t0 + 900000; PriceFeed.k_o := 101; PriceFeed.k_h := 102;
       PriceFeed.k_l := 100; PriceFeed.k_c := 101; PriceFeed.k_v := 1 |} in
  let st := PriceFeed.aggregate tickA (PriceFeed.initial true) in
  (length (PriceFeed.candles15m
             (PriceFeed.ingest [tickA; tickB] (feedAt t0))) <= 100)%nat
  /\ PriceFeed.candles15m (PriceFeed.aggregate tickB st)
     = PriceFeed.candles15m st
  /\ length (PriceFeed.candles15m (PriceFeed.aggregate next st)) = 1%nat.
Proof.
  cbv zeta.
  destruct history_is_a_bounded_queue as [_ [Hbound [Hseal Hsame]]].
  split; [| split].
  - apply Hbound. vm_compute. repeat constructor.
  - eapply Hsame; [reflexivity | left; reflexivity].
  - edestruct (Hseal
                 {| PriceFeed.k_t := t0 + 900000; PriceFeed.k_o := 101;
                    PriceFeed.k_h := 102; PriceFeed.k_l := 100;
                    PriceFeed.k_c := 101; PriceFeed.k_v := 1 |}
                 (PriceFeed.aggregate tickA (PriceFeed.initial true)))
      as [Happend _];
      [reflexivity | vm_compute; discriminate | vm_compute; discriminate |].
    rewrite Happend; [reflexivity | vm_compute; repeat constructor].
Defined.

Lemma window_open_and_volume_witness :
  exists c,
    PriceFeed.currentCandle
      (PriceFeed.ingest [tickA; tickB] (PriceFeed.initial true)) = Some c
    /\ Model.open c = 100
    /\ Model.volume c == 5.
Proof.
  destruct (window_open_and_volume t0 tickA [tickB] (PriceFeed.initial true))
    as [c [E [_ [Ho Hv]]]]; [exact I | repeat constructor |].
  exists c. split; [exact E |]. split; [exact Ho |].
  rewrite Hv. vm_compute. reflexivity.
Defined.

Lemma production_order_is_signed_then_posted_witness :
  sends "up-token" 0.50 50
        (Bot.place (fst (inWindow 0 Polymarket.PostThrows))) market
        (Polymarket.placeBetUp true
           (Bot.place (fst (inWindow 0 Polymarket.PostThrows))) 50 market)
  /\ sends "down-token" 0.50 50
           (Bot.place (fst (inWindow 0 Polymarket.PostThrows))) market
           (Polymarket.placeBetDown true
              (Bot.place (fst (inWindow 0 Polymarket.PostThrows))) 50 market).
Proof.
  destruct (production_order_is_signed_then_posted
              (Bot.place (fst (inWindow 0 Polymarket.PostThrows))) 50 market)
    as [Hup Hdown].
  split; [apply Hup | apply Hdown]; discriminate.
Defined.

End FurtherInstances.

(** ** Resampling stored candles *)

Section Resampling.
Import CollectData.

Lemma insertByTime_perm (c : Candle) (l : list Candle) :
  Permutation (insertByTime c l) (c :: l).
Proof.
  induction l as [| y rest IH]; cbn [insertByTime]; [apply Permutation_refl |].
  destruct (timestamp c <=? timestamp y)%Z; [apply Permutation_refl |].
  eapply perm_trans; [apply perm_skip, IH | apply perm_swap].
Qed.

Lemma sortByTime_perm (l : list Candle) : Permutation (sortByTime l) l.
Proof.
  induction l as [| x l IH]; [constructor |].
  cbn [sortByTime fold_right].
  eapply perm_trans; [apply insertByTime_perm | apply perm_skip, IH].
Qed.

Lemma insertByTime_sorted (c : Candle) (l : list Candle) :
  StronglySorted earlier l -> StronglySorted earlier (insertByTime c l).
Proof.
  induction l as [| y rest IH]; intros H; cbn [insertByTime].
  - repeat constructor.
  - inversion H as [| ? ? Hrest Hall]; subst.
    destruct (Z.leb_spec (timestamp c) (timestamp y)) as [Hle | Hgt].
    + constructor; [exact H |]. constructor; [exact Hle |].
      eapply Forall_impl; [| exact Hall]. unfold earlier. intros z Hz. lia.
    + constructor; [apply IH, Hrest |].
      eapply Permutation_Forall;
        [apply Permutation_sym, insertByTime_perm |].
      constructor; [unfold earlier; lia | exact Hall].
Qed.

Lemma sortByTime_sorted (l : list Candle) : StronglySorted earlier (sortByTime l).
Proof.
  induction l as [| x l IH]; [constructor |].
  cbn [sortByTime fold_right]. apply insertByTime_sorted, IH.
Qed.

Lemma sorted_distinct_increasing (l : list Candle) :
  StronglySorted earlier l -> NoDup (map timestamp l) ->
  StronglySorted Z.lt (map timestamp l).
Proof.
  induction 1 as [| a l Hs IH Hall]; intros Hnd; cbn [map]; [constructor |].
  inversion Hnd as [| ? ? Hnotin Hnd']; subst.
  constructor; [apply IH, Hnd' |].
  rewrite Forall_map, Forall_forall. intros b Hb.
  rewrite Forall_forall in Hall. specialize (Hall b Hb). unfold earlier in Hall.
  assert (timestamp a <> timestamp b).
  { intros E. apply Hnotin. rewrite E. apply in_map, Hb. }
  lia.
Qed.

Lemma sorted_last (l : list Candle) :
  StronglySorted earlier l ->
  forall d, l <> [] ->
            In (last l d) l /\ Forall (fun c => earlier c (last l d)) l.
Proof.
  induction 1 as [| a l Hs IH Hall]; intros d Hne; [congruence |].
  destruct l as [| b l].
  - cbn. split; [left; reflexivity |].
    constructor; [unfold earlier; lia | constructor].
  - change (last (a :: b :: l) d) with (last (b :: l) d).
    destruct (IH d) as [Hin Hle]; [discriminate |].
    split; [right; exact Hin |].
    constructor; [| exact Hle].
    rewrite Forall_forall in Hall. apply Hall, Hin.
Qed.

(** The keys of the map after one more candle. *)
Lemma addToWindow_keys (key : Z) (c : Candle) (windows : list (Z * list Candle)) :
  map fst (addToWindow key c windows)
  = if existsb (Z.eqb key) (map fst windows) then map fst windows
    else map fst windows ++ [key].
Proof.
  induction windows as [| [k g] rest IH]; cbn [addToWindow map existsb fst];
    [reflexivity |].
  rewrite (Z.eqb_sym key k).
  destruct (k =? key)%Z; cbn [orb map fst]; [reflexivity |].
  rewrite IH. destruct (existsb _ _); reflexivity.
Qed.

Lemma known_key (key : Z) (keys : list Z) :
  existsb (Z.eqb key) keys = true <-> In key keys.
Proof.
  rewrite existsb_exists. split.
  - intros [k [Hk E]]. apply Z.eqb_eq in E. subst k. exact Hk.
  - intros H. exists key. split; [exact H | apply Z.eqb_refl].
Qed.

Lemma addToWindow_well_keyed (c : Candle) (windows : list (Z * list Candle)) :
  well_keyed windows -> well_keyed (addToWindow (windowKey c) c windows).
Proof.
  intros [Hnd Hall]. split.
  - rewrite addToWindow_keys.
    destruct (existsb _ _) eqn:E; [exact Hnd |].
    apply NoDup_app; [exact Hnd | repeat constructor; intros [] |].
    intros k Hk [<- | []]. apply known_key in Hk. congruence.
  - clear Hnd. induction windows as [| [k g] rest IH]; cbn [addToWindow].
    + repeat constructor; discriminate.
    + inversion Hall as [| ? ? [Hne Hg] Hrest]; subst. cbn [fst snd] in *.
      destruct (Z.eqb_spec k (windowKey c)) as [-> | Hk].
      * constructor; [| exact Hrest]. cbn [fst snd]. split.
        -- intros E. apply app_eq_nil in E. destruct E as [_ E]. discriminate.
        -- apply Forall_app. split; [exact Hg | repeat constructor].
      * constructor; [split; assumption | apply IH, Hrest].
Qed.

Lemma groupByWindow_snoc (candles : list Candle) (c : Candle) :
  groupByWindow (candles ++ [c])
  = addToWindow (windowKey c) c (groupByWindow candles).
Proof. unfold groupByWindow. rewrite fold_left_app. reflexivity. Qed.

Lemma groupByWindow_well_keyed (candles : list Candle) :
  well_keyed (groupByWindow candles).
Proof.
  induction candles as [| c candles IH] using rev_ind.
  - split; constructor.
  - rewrite groupByWindow_snoc. apply addToWindow_well_keyed, IH.
Qed.

(** Every candle's window has an entry. *)
Lemma groupByWindow_members (candles : list Candle) :
  forall c, In c candles -> In (windowKey c) (map fst (groupByWindow candles)).
Proof.
  induction candles as [| x candles IH] using rev_ind; intros c Hc;
    [destruct Hc |].
  rewrite groupByWindow_snoc, addToWindow_keys.
  apply in_app_or in Hc. destruct Hc as [Hc | [<- | []]].
  - specialize (IH c Hc).
    destruct (existsb _ _); [exact IH | apply in_or_app; left; exact IH].
  - destruct (existsb _ _) eqn:E; [apply known_key, E |].
    apply in_or_app. right. left. reflexivity.
Qed.

(** Where an entry of the map after one more candle comes from. *)
Lemma addToWindow_entry (key : Z) (c : Candle) (windows : list (Z * list Candle)) :
  NoDup (map fst windows) ->
  forall k g,
    In (k, g) (addToWindow key c windows) ->
    (k <> key /\ In (k, g) windows)
    \/ (k = key /\ exists g0, In (key, g0) windows /\ g = g0 ++ [c])
    \/ (k = key /\ g = [c] /\ ~ In key (map fst windows)).
Proof.
  induction windows as [| [k0 g0] rest IH]; intros Hnd k g Hin;
    cbn [addToWindow] in Hin.
  - destruct Hin as [E | []]. injection E as <- <-.
    right. right. repeat split. intros [].
  - inversion Hnd as [| ? ? Hnotin Hnd']; subst. cbn [fst] in Hnotin.
    destruct (Z.eqb_spec k0 key) as [-> | Hk0].
    + destruct Hin as [E | Hin].
      * injection E as <- <-. right. left. split; [reflexivity |].
        exists g0. split; [left; reflexivity | reflexivity].
      * left. split; [| right; exact Hin].
        intros ->. apply Hnotin.
        change key with (fst (key, g)). apply in_map, Hin.
    + destruct Hin as [E | Hin].
      * injection E as <- <-. left. split; [exact Hk0 | left; reflexivity].
      * destruct (IH Hnd' k g Hin) as [[Hk H] | [[Hk [g1 [H Hg]]] | [Hk [Hg H]]]].
        -- left. split; [exact Hk | right; exact H].
        -- right. left. split; [exact Hk |].
           exists g1. split; [right; exact H | exact Hg].
        -- right. right. repeat split; try assumption.
           cbn [map fst]. intros [E | H']; [congruence | exact (H H')].
Qed.

(** An entry holds the candles of its window, in the order of the input. *)
Lemma groupByWindow_entry (candles : list Candle) :
  forall k g, In (k, g) (groupByWindow candles) -> g = members k candles.
Proof.
  unfold members.
  induction candles as [| c candles IH] using rev_ind; intros k g Hin;
    [destruct Hin |].
  rewrite groupByWindow_snoc in Hin. rewrite filter_app. cbn [filter].
  destruct (groupByWindow_well_keyed candles) as [Hnd _].
  destruct (addToWindow_entry _ _ _ Hnd _ _ Hin)
    as [[Hk H] | [[Hk [g1 [H Hg]]] | [Hk [Hg H]]]].
  - destruct (Z.eqb_spec (windowKey c) k) as [E | _]; [congruence |].
    rewrite app_nil_r. apply IH, H.
  - subst k. rewrite Z.eqb_refl, Hg. f_equal. apply IH, H.
  - subst k. rewrite Z.eqb_refl, Hg.
    replace (filter (fun x => (windowKey x =? windowKey c)%Z) candles)
      with (@nil Candle); [reflexivity |].
    symmetry. clear IH Hin Hnd.
    assert (Hall : Forall (fun x => windowKey x <> windowKey c) candles).
    { rewrite Forall_forall. intros x Hx E. apply H. rewrite <- E.
      apply groupByWindow_members, Hx. }
    clear H. induction Hall as [| x l Hx _ IHl]; [reflexivity |].
    cbn [filter]. apply Z.eqb_neq in Hx. rewrite Hx. exact IHl.
Qed.

(** The candle a non-empty window gives. *)
Lemma aggregateWindow_fields (key : Z) (windowCandles : list Candle) :
  windowCandles <> [] ->
  exists first others,
    sortByTime windowCandles = first :: others
    /\ aggregateWindow (key, windowCandles)
       = [ {| timestamp := key;
              open := open first;
              high := fold_left Qmax (map high others) (high first);
              low := fold_left Qmin (map low others) (low first);
              close := close (last (first :: others) first);
              volume := fold_left (fun sum c => sum + volume c)
                                  (first :: others) 0;
              quote_volume := fold_left (fun sum c => sum + quote_volume c)
                                        (first :: others) 0;
              trades := fold_left (fun sum c => (sum + trades c)%Z)
                                  (first :: others) 0%Z |} ].
Proof.
  intros Hne. unfold aggregateWindow.
  destruct (sortByTime windowCandles) as [| first others] eqn:E.
  - exfalso. apply Hne.
    apply Permutation_nil. rewrite <- E. apply sortByTime_perm.
  - exists first, others. split; reflexivity.
Qed.

Lemma aggregated_timestamps (windows : list (Z * list Candle)) :
  Forall (fun entry => snd entry <> []) windows ->
  map timestamp (flat_map aggregateWindow windows) = map fst windows.
Proof.
  induction 1 as [| [k g] rest Hne _ IH]; [reflexivity |].
  cbn [flat_map map fst]. cbn [snd] in Hne.
  destruct (aggregateWindow_fields k g Hne) as [first [others [_ ->]]].
  cbn [app map timestamp]. rewrite IH. reflexivity.
Qed.

Lemma groups_nonempty (candles : list Candle) :
  Forall (fun entry => snd entry <> []) (groupByWindow candles).
Proof.
  destruct (groupByWindow_well_keyed candles) as [_ Hall].
  eapply Forall_impl; [| exact Hall]. intros e [H _]. exact H.
Qed.

(** X22.  [resampleTo15m] returns nothing for no candles.  Otherwise it
    returns the windows in strictly increasing order of time, one candle
    per window: every timestamp is a multiple of 15 minutes, the window
    start of some input candle, and the window of every input candle is
    there. *)
Theorem resample_windows_are_ordered :
  resampleTo15m [] = []
  /\ forall candles : list Candle,
      let resampled := resampleTo15m candles in
      StronglySorted Z.lt (map timestamp resampled)
      /\ Forall (fun r => (timestamp r mod 900000 = 0)%Z
                          /\ exists c, In c candles /\ windowKey c = timestamp r)
                resampled
      /\ forall c, In c candles -> In (windowKey c) (map timestamp resampled).
Proof.
  split; [reflexivity |]. intros candles. cbv zeta.
  destruct candles as [| c0 cs]; [repeat split; try constructor; intros c [] |].
  unfold resampleTo15m. set (candles := c0 :: cs).
  destruct (groupByWindow_well_keyed candles) as [Hnd Hall].
  pose proof (aggregated_timestamps _ (groups_nonempty candles)) as Hts.
  assert (Hkeys : Permutation
                    (map timestamp
                       (sortByTime (flat_map aggregateWindow
                                             (groupByWindow candles))))
                    (map fst (groupByWindow candles))).
  { rewrite <- Hts. apply Permutation_map, sortByTime_perm. }
  split; [| split].
  - apply sorted_distinct_increasing; [apply sortByTime_sorted |].
    eapply Permutation_NoDup; [apply Permutation_sym, Hkeys | exact Hnd].
  - rewrite Forall_forall. intros r Hr.
    assert (Hk : In (timestamp r) (map fst (groupByWindow candles))).
    { eapply Permutation_in; [exact Hkeys | apply in_map, Hr]. }
    apply in_map_iff in Hk. destruct Hk as [[k g] [Ek He]]. cbn [fst] in Ek.
    rewrite Forall_forall in Hall. destruct (Hall _ He) as [Hg _].
    cbn [snd] in Hg. pose proof (groupByWindow_entry _ _ _ He) as Eg.
    destruct g as [| c g]; [congruence |].
    assert (Hc : In c (members k candles)) by (rewrite <- Eg; left; reflexivity).
    unfold members in Hc. apply filter_In in Hc. destruct Hc as [Hc Hkey].
    apply Z.eqb_eq in Hkey. split.
    + rewrite <- Ek, <- Hkey. unfold windowKey.
      rewrite get15MinWindowStart_floor.
      Z.to_euclidean_division_equations. lia.
    + exists c. split; [exact Hc | congruence].
  - intros c Hc. eapply Permutation_in;
      [apply Permutation_sym, Hkeys | apply groupByWindow_members, Hc].
Qed.

Lemma sum_cons (x : Q) (l : list Q) : Model.sum (x :: l) == x + Model.sum l.
Proof.
  unfold Model.sum at 1. cbn [fold_left]. rewrite sum_from. lra.
Qed.

Lemma sum_app (l l' : list Q) : Model.sum (l ++ l') == Model.sum l + Model.sum l'.
Proof.
  induction l as [| x l IH]; cbn [app].
  - unfold Model.sum at 2. cbn. lra.
  - rewrite !sum_cons, IH. lra.
Qed.

Lemma sum_perm (l l' : list Q) : Permutation l l' -> Model.sum l == Model.sum l'.
Proof.
  induction 1 as [| x l l' _ IH | x y l | l l' l'' _ IH1 _ IH2].
  - reflexivity.
  - rewrite !sum_cons, IH. reflexivity.
  - rewrite !sum_cons. lra.
  - rewrite IH1. exact IH2.
Qed.

Lemma count_from (l : list Z) : forall a, fold_left Z.add l a = (a + count l)%Z.
Proof.
  unfold count. induction l as [| x l IH]; intros a; cbn [fold_left]; [lia |].
  rewrite (IH (a + x)%Z), (IH (0 + x)%Z). lia.
Qed.

Lemma count_cons (x : Z) (l : list Z) : count (x :: l) = (x + count l)%Z.
Proof. unfold count at 1. cbn [fold_left]. rewrite count_from. lia. Qed.

Lemma count_app (l l' : list Z) : count (l ++ l') = (count l + count l')%Z.
Proof.
  induction l as [| x l IH]; cbn [app]; [reflexivity |].
  rewrite !count_cons, IH. lia.
Qed.

Lemma count_perm (l l' : list Z) : Permutation l l' -> count l = count l'.
Proof.
  induction 1 as [| x l l' _ IH | x y l | l l' l'' _ IH1 _ IH2].
  - reflexivity.
  - rewrite !count_cons, IH. reflexivity.
  - rewrite !count_cons. lia.
  - rewrite IH1. exact IH2.
Qed.

Lemma reduce_sum (f : Candle -> Q) (l : list Candle) :
  forall a, fold_left (fun sum c => sum + f c) l a = fold_left Qplus (map f l) a.
Proof.
  induction l as [| x l IH]; intros a; [reflexivity |]. cbn [fold_left map].
  apply IH.
Qed.

Lemma reduce_count (f : Candle -> Z) (l : list Candle) :
  forall a, fold_left (fun sum c => (sum + f c)%Z) l a
            = fold_left Z.add (map f l) a.
Proof.
  induction l as [| x l IH]; intros a; [reflexivity |]. cbn [fold_left map].
  apply IH.
Qed.

(** The three totals of the candle a window gives. *)
Lemma aggregateWindow_totals (key : Z) (windowCandles : list Candle) (r : Candle) :
  In r (aggregateWindow (key, windowCandles)) ->
  volume r == Model.sum (map volume windowCandles)
  /\ quote_volume r == Model.sum (map quote_volume windowCandles)
  /\ trades r = count (map trades windowCandles).
Proof.
  intros Hr.
  destruct windowCandles as [| c0 cs]; [destruct Hr |].
  destruct (aggregateWindow_fields key (c0 :: cs)) as [first [others [E Ha]]];
    [discriminate |].
  rewrite Ha in Hr. destruct Hr as [<- | []].
  cbn [volume quote_volume trades].
  rewrite !reduce_sum, reduce_count, <- E.
  pose proof (sortByTime_perm (c0 :: cs)) as P.
  split; [| split].
  - apply (sum_perm _ _ (Permutation_map volume P)).
  - apply (sum_perm _ _ (Permutation_map quote_volume P)).
  - apply (count_perm _ _ (Permutation_map trades P)).
Qed.

Lemma aggregated_totals (windows : list (Z * list Candle)) :
  Forall (fun entry => snd entry <> []) windows ->
  let stored := concat (map snd windows) in
  let aggregated := flat_map aggregateWindow windows in
  Model.sum (map volume aggregated) == Model.sum (map volume stored)
  /\ Model.sum (map quote_volume aggregated)
     == Model.sum (map quote_volume stored)
  /\ count (map trades aggregated) = count (map trades stored).
Proof.
  cbv zeta.
  induction 1 as [| [k g] rest Hne _ [IH1 [IH2 IH3]]];
    [repeat split; reflexivity |].
  cbn [flat_map map concat snd]. cbn [snd] in Hne.
  destruct (aggregateWindow_fields k g Hne) as [first [others [_ Ha]]].
  destruct (aggregateWindow_totals k g
              (hd first (aggregateWindow (k, g)))) as [T1 [T2 T3]];
    [rewrite Ha; left; reflexivity |].
  rewrite Ha in *. cbn [hd] in T1, T2, T3. cbn [app map].
  rewrite !map_app, !sum_cons, !sum_app, count_cons, count_app.
  rewrite IH1, IH2, IH3, T1, T2, T3. repeat split; reflexivity.
Qed.

Lemma addToWindow_stored (key : Z) (c : Candle) (windows : list (Z * list Candle)) :
  Permutation (concat (map snd (addToWindow key c windows)))
              (concat (map snd windows) ++ [c]).
Proof.
  induction windows as [| [k g] rest IH]; cbn [addToWindow];
    [apply Permutation_refl |].
  destruct (k =? key)%Z; cbn [map concat snd]; rewrite <- !app_assoc;
    apply Permutation_app_head; [apply Permutation_app_comm | exact IH].
Qed.

(** The map holds exactly the candles it was given. *)
Lemma groupByWindow_stored (candles : list Candle) :
  Permutation (concat (map snd (groupByWindow candles))) candles.
Proof.
  induction candles as [| c candles IH] using rev_ind; [constructor |].
  rewrite groupByWindow_snoc.
  eapply perm_trans; [apply addToWindow_stored |].
  apply Permutation_app_tail, IH.
Qed.

(** X23.  Resampling loses and invents nothing: in exact arithmetic the
    volume, the quote volume and the number of trades of the resampled
    candles add up to those of the input candles. *)
Theorem resample_conserves_totals :
  forall candles : list Candle,
    let resampled := resampleTo15m candles in
    Model.sum (map volume resampled) == Model.sum (map volume candles)
    /\ Model.sum (map quote_volume resampled)
       == Model.sum (map quote_volume candles)
    /\ count (map trades resampled) = count (map trades candles).
Proof.
  intros candles. cbv zeta.
  destruct candles as [| c0 cs]; [repeat split; reflexivity |].
  unfold resampleTo15m. set (candles := c0 :: cs).
  destruct (aggregated_totals _ (groups_nonempty candles)) as [T1 [T2 T3]].
  pose proof (sortByTime_perm (flat_map aggregateWindow (groupByWindow candles)))
    as P.
  pose proof (groupByWindow_stored candles) as S.
  split; [| split].
  - rewrite (sum_perm _ _ (Permutation_map volume P)), T1.
    apply sum_perm, Permutation_map, S.
  - rewrite (sum_perm _ _ (Permutation_map quote_volume P)), T2.
    apply sum_perm, Permutation_map, S.
  - rewrite (count_perm _ _ (Permutation_map trades P)), T3.
    apply count_perm, Permutation_map, S.
Qed.

Lemma fold_max_is_max (l : list Q) : forall a, is_max (fold_left Qmax l a) (a :: l).
Proof.
  induction l as [| x l IH]; intros a; cbn [fold_left].
  - split; [constructor; [apply Qle_refl | constructor] |].
    apply Exists_cons_hd. reflexivity.
  - apply is_max_merge, IH.
Qed.

Lemma fold_min_is_min (l : list Q) : forall a, is_min (fold_left Qmin l a) (a :: l).
Proof.
  induction l as [| x l IH]; intros a; cbn [fold_left].
  - split; [constructor; [apply Qle_refl | constructor] |].
    apply Exists_cons_hd. reflexivity.
  - apply is_min_merge, IH.
Qed.

Lemma is_max_moved (m : Q) (xs xs' : list Q) :
  Permutation xs xs' -> is_max m xs -> is_max m xs'.
Proof.
  intros P [Hall Hex]. split.
  - eapply Permutation_Forall; eassumption.
  - eapply Permutation_Exists; eassumption.
Qed.

Lemma is_min_moved (m : Q) (xs xs' : list Q) :
  Permutation xs xs' -> is_min m xs -> is_min m xs'.
Proof.
  intros P [Hall Hex]. split.
  - eapply Permutation_Forall; eassumption.
  - eapply Permutation_Exists; eassumption.
Qed.

(** X24.  A resampled candle summarises the input candles of its window,
    wherever they stand in the input: it opens at the open of one with the
    least timestamp and closes at the close of one with the greatest, its
    high is their greatest high and its low their least low, and its
    volume, quote volume and trades are their sums. *)
Theorem resampled_candle_summarises_its_window :
  forall (candles : list Candle) (r : Candle),
    In r (resampleTo15m candles) ->
    let window := members (timestamp r) candles in
    window <> []
    /\ (exists first, In first window /\ Forall (earlier first) window
                      /\ open r = open first)
    /\ (exists latest, In latest window
                       /\ Forall (fun c => earlier c latest) window
                       /\ close r = close latest)
    /\ is_max (high r) (map high window)
    /\ is_min (low r) (map low window)
    /\ volume r == Model.sum (map volume window)
    /\ quote_volume r == Model.sum (map quote_volume window)
    /\ trades r = count (map trades window).
Proof.
  intros candles r Hr. cbv zeta.
  destruct candles as [| c0 cs]; [destruct Hr |].
  unfold resampleTo15m in Hr. set (candles := c0 :: cs) in *.
  apply (Permutation_in _ (sortByTime_perm _)) in Hr.
  pose proof Hr as Hin. apply in_flat_map in Hin.
  destruct Hin as [[k g] [He Hg]].
  pose proof (groups_nonempty candles) as Hne.
  rewrite Forall_forall in Hne. specialize (Hne _ He). cbn [snd] in Hne.
  destruct (aggregateWindow_totals _ _ _ Hg) as [T1 [T2 T3]].
  destruct (aggregateWindow_fields k g Hne) as [first [others [E Ha]]].
  rewrite Ha in Hg. destruct Hg as [Er | []].
  assert (Ek : timestamp r = k) by (rewrite <- Er; reflexivity).
  rewrite Ek, <- (groupByWindow_entry _ _ _ He).
  pose proof (sortByTime_perm g) as P. rewrite E in P.
  pose proof (sortByTime_sorted g) as S. rewrite E in S.
  split; [exact Hne |].
  split; [| split; [| split; [| split; [| split; [| split]]]]];
    try assumption.
  - exists first. split; [| split].
    + eapply Permutation_in; [exact P | left; reflexivity].
    + eapply Permutation_Forall; [exact P |].
      inversion S as [| ? ? _ Hall]; subst.
      constructor; [unfold earlier; lia | exact Hall].
    + rewrite <- Er. reflexivity.
  - destruct (sorted_last _ S first) as [Hin Hle]; [discriminate |].
    exists (last (first :: others) first). split; [| split].
    + eapply Permutation_in; [exact P | exact Hin].
    + eapply Permutation_Forall; [exact P | exact Hle].
    + rewrite <- Er. reflexivity.
  - rewrite <- Er. cbn [high].
    eapply is_max_moved; [apply Permutation_map, P |]. apply fold_max_is_max.
  - rewrite <- Er. cbn [low].
    eapply is_min_moved; [apply Permutation_map, P |]. apply fold_min_is_min.
Qed.

End Resampling.

(** ** Stored candles replayed through the live aggregator *)

Section Replay.
Import CollectData.

Lemma groupByWindow_one_window (W : Z) (candles : list Candle) :
  candles <> [] ->
  Forall (fun c => windowKey c = W) candles ->
  groupByWindow candles = [(W, candles)].
Proof.
  induction candles as [| c candles IH] using rev_ind; intros Hne Hall;
    [congruence |].
  apply Forall_app in Hall. destruct Hall as [Hall Hc].
  inversion Hc as [| ? ? Hkey _]; subst.
  rewrite groupByWindow_snoc.
  destruct candles as [| c0 cs]; [reflexivity |].
  rewrite IH; [| discriminate | exact Hall].
  cbn [addToWindow]. rewrite Z.eqb_refl. reflexivity.
Qed.

Lemma last_asKline (l : list Candle) :
  forall d, last (map asKline l) (asKline d) = asKline (last l d).
Proof.
  induction l as [| a l IH]; intros d; [reflexivity |].
  destruct l as [| b l]; [reflexivity |].
  change (last (map asKline (b :: l)) (asKline d) = asKline (last (b :: l) d)).
  apply IH.
Qed.

(** X25.  The stored candles of one window, replayed in time order through
    the live aggregator into a feed whose open candle is not of that
    window, leave the very candle [resampleTo15m] computes from them: same
    timestamp, open, high, low, close and volume. *)
Theorem replay_matches_resample :
  forall (candles : list Candle) (W : Z) (st : PriceFeed.State),
    candles <> [] ->
    Forall (fun c => windowKey c = W) candles ->
    match PriceFeed.currentCandle st with
    | Some cur => Model.timestamp cur <> W
    | None => True
    end ->
    exists r live,
      resampleTo15m candles = [r]
      /\ PriceFeed.currentCandle
           (PriceFeed.ingest (map asKline (sortByTime candles)) st) = Some live
      /\ Model.timestamp live = timestamp r
      /\ Model.open live = open r
      /\ Model.high live == high r
      /\ Model.low live == low r
      /\ Model.close live = close r
      /\ Model.volume live == volume r.
Proof.
  intros candles W st Hne Hall Hother.
  destruct (aggregateWindow_fields W candles Hne) as [first [others [E Ha]]].
  assert (Hr : resampleTo15m candles = aggregateWindow (W, candles)).
  { destruct candles as [| c0 cs]; [congruence |].
    unfold resampleTo15m.
    rewrite (groupByWindow_one_window W) by assumption.
    cbn [flat_map]. rewrite Ha. reflexivity. }
  rewrite Hr, Ha, E. clear Hr Ha. eexists.
  assert (Hticks : Forall (in_window W) (map asKline (first :: others))).
  { rewrite Forall_map. eapply Permutation_Forall;
      [apply Permutation_sym; rewrite <- E; apply sortByTime_perm |].
    exact Hall. }
  cbn [map] in *.
  inversion Hticks as [| ? ? Hk Hrest]; subst. unfold in_window in Hk.
  assert (Ho : PriceFeed.currentCandle (PriceFeed.aggregate (asKline first) st)
               = Some {| Model.timestamp :=
                           Utils.get15MinWindowStart (PriceFeed.k_t (asKline first));
                         Model.open := PriceFeed.k_o (asKline first);
                         Model.high := PriceFeed.k_h (asKline first);
                         Model.low := PriceFeed.k_l (asKline first);
                         Model.close := PriceFeed.k_c (asKline first);
                         Model.volume := PriceFeed.k_v (asKline first) |}).
  { apply aggregate_open. rewrite Hk. exact Hother. }
  destruct (ingest_open_candle (map asKline others) _ _ Ho)
    as [live [E1 [E2 [E3 [E4 E5]]]]];
    [cbn [Model.timestamp]; rewrite Hk; exact Hrest |].
  destruct (ingest_open_volume (map asKline others) _ _ Ho)
    as [live' [F1 [F2 [F3 _]]]];
    [cbn [Model.timestamp]; rewrite Hk; exact Hrest |].
  rewrite E1 in F1. injection F1 as <-.
  cbn [Model.timestamp Model.open Model.high Model.low Model.close
       Model.volume] in *.
  exists live.
  change (PriceFeed.ingest (asKline first :: map asKline others) st)
    with (PriceFeed.ingest (map asKline others)
                           (PriceFeed.aggregate (asKline first) st)).
  split; [reflexivity |]. split; [exact E1 |].
  cbn [timestamp open high low close volume].
  replace (map PriceFeed.k_h (map asKline others)) with (map high others) in E3
    by (rewrite map_map; reflexivity).
  replace (map PriceFeed.k_l (map asKline others)) with (map low others) in E4
    by (rewrite map_map; reflexivity).
  replace (map PriceFeed.k_v (map asKline others)) with (map volume others) in F3
    by (rewrite map_map; reflexivity).
  cbn [asKline PriceFeed.k_h PriceFeed.k_l PriceFeed.k_c PriceFeed.k_v
       PriceFeed.k_o] in *.
  split; [congruence |]. split; [exact F2 |].
  split; [| split; [| split]].
  - eapply is_max_perm; [apply Permutation_refl | exact E3 |].
    apply fold_max_is_max.
  - eapply is_min_perm; [apply Permutation_refl | exact E4 |].
    apply fold_min_is_min.
  - rewrite E5. destruct others as [| c1 others']; [reflexivity |].
    change (last (first :: c1 :: others') first)
      with (last (c1 :: others') first).
    rewrite (last_map_close (map asKline (c1 :: others')) (asKline first))
      by discriminate.
    rewrite last_asKline. reflexivity.
  - rewrite F3, reduce_sum. cbn [map fold_left].
    rewrite (sum_from (map volume others) (0 + volume first)). lra.
Qed.

End Replay.

(** ** Resampling on concrete inputs *)

Section ResamplingInstances.
Import Examples.

Lemma resample_windows_are_ordered_witness :
  In (CollectData.windowKey (minute 960000 101 103 100 102 5 40))
     (map CollectData.timestamp (CollectData.resampleTo15m stored)).
Proof.
  destruct resample_windows_are_ordered as [_ H].
  destruct (H stored) as [_ [_ Hin]].
  apply Hin. left. reflexivity.
Defined.

Lemma resampled_candle_summarises_its_window_witness :
  let r := hd (minute 0 0 0 0 0 0 0) (CollectData.resampleTo15m stored) in
  In r (CollectData.resampleTo15m stored)
  /\ CollectData.trades r
     = count (map CollectData.trades (members (CollectData.timestamp r) stored)).
Proof.
  cbv zeta.
  assert (H : In (hd (minute 0 0 0 0 0 0 0) (CollectData.resampleTo15m stored))
                 (CollectData.resampleTo15m stored))
    by (vm_compute; left; reflexivity).
  split; [exact H |].
  apply (resampled_candle_summarises_its_window stored _ H).
Defined.

Lemma replay_matches_resample_witness :
  exists r live,
    CollectData.resampleTo15m oneWindow = [r]
    /\ PriceFeed.currentCandle
         (PriceFeed.ingest
            (map CollectData.asKline (CollectData.sortByTime oneWindow))
            (PriceFeed.initial false)) = Some live
    /\ Model.timestamp live = CollectData.timestamp r
    /\ Model.open live = CollectData.open r
    /\ Model.high live == CollectData.high r
    /\ Model.low live == CollectData.low r
    /\ Model.close live = CollectData.close r
    /\ Model.volume live == CollectData.volume r.
Proof.
  apply (replay_matches_resample oneWindow t0 (PriceFeed.initial false)).
  - discriminate.
  - repeat constructor.
  - exact I.
Defined.

End ResamplingInstances.
